(** * Arcade vehicle controller (components/vehicle.tsx): model and properties

    The [Car] component registers two callbacks: [useBeforePhysicsStep]
    (one call per fixed physics step) and [useFrame] (one call per rendered
    frame).  Both read and write a handful of [useRef] cells.  The model
    below keeps the cells in one record [Refs], passes it through each
    callback explicitly, and returns what the callback did to the physics
    body as a list of [applyImpulse] calls.

    Numbers.  JavaScript numbers are binary64 floats.  The callbacks are
    written once over an interface [Num] of the arithmetic they use and are
    instantiated twice: at Rocq's primitive binary64 floats, the arithmetic
    of the source, and at [Q], exact rational arithmetic.  What a callback
    computes is stated for every arithmetic; bounds and closed forms are
    proved at [Q] and say so; where rounding makes the program differ from
    the exact statement, the run that shows it is replayed in binary64
    (module [Binary64]).

    three.js.  [THREE.MathUtils.lerp], [Vector3] and [Quaternion] belong to
    the three.js library.  [lerp] and the vector operations are transcribed
    from it.  A quaternion is kept by the arguments it was built from
    ([setFromAxisAngle (axis, angle)]): its four components are sines and
    cosines, which neither arithmetic has.  [THREE.components] and
    [THREE.applyQuaternion] give the components for any pair of functions
    standing for [Math.sin] and [Math.cos]; the one test the physics
    callback makes on a rotated vector, [impulse.length() > 0], is recorded
    with the call it guards and evaluated by [THREE.length_positive] for
    such a pair.

    Besides the two callbacks of [Car], the development covers the wheel
    callback of [CarBody] (module [CarBody]), the interleaving of physics
    steps and rendered frames ([schedule]), and the presence handler and
    the frame callback of other-players.tsx (module [OtherPlayers]), where
    the object a message carries and [presenceRef.current] are one object,
    kept at one address of a small heap. *)

From Stdlib Require Import QArith Qabs Lqa Lia Bool List ZArith.
From Stdlib Require Floats Uint63 String.
From Stdlib Require Import Permutation.
Import ListNotations.
Import String.StringSyntax.
Delimit Scope string_scope with string.

Set Implicit Arguments.

(** ** The arithmetic of the callbacks *)

Class Num (num : Type) := {
  lit : Q -> num;              (* a numeric literal of the source *)
  add : num -> num -> num;
  sub : num -> num -> num;
  mul : num -> num -> num;
  div : num -> num -> num;
  neg : num -> num;            (* unary minus *)
  ltb : num -> num -> bool     (* a < b *)
}.

Declare Scope num_scope.
Delimit Scope num_scope with num.
Notation "a + b" := (add a b) : num_scope.
Notation "a - b" := (sub a b) : num_scope.
Notation "a * b" := (mul a b) : num_scope.
Notation "a / b" := (div a b) : num_scope.
Notation "- a" := (neg a) : num_scope.
Notation "a <? b" := (ltb a b) : num_scope.
Notation "a >? b" := (ltb b a) : num_scope.

(** Exact arithmetic. *)
#[global] Instance Num_Q : Num Q := {|
  lit := fun q => q;
  add := Qplus;
  sub := Qminus;
  mul := Qmult;
  div := Qdiv;
  neg := Qopp;
  ltb := fun a b => negb (Qle_bool b a)
|}.

(** binary64.  A literal [n/d] with [n] and [d] below 2^53 is the correctly
    rounded quotient of two exact floats, which is the float the JavaScript
    parser yields for the same decimal literal. *)
Definition float_of_Z (z : Z) : PrimFloat.float :=
  match z with
  | Z0 => PrimFloat.zero
  | Zpos p => PrimFloat.of_uint63 (Uint63.of_Z (Zpos p))
  | Zneg p => PrimFloat.opp (PrimFloat.of_uint63 (Uint63.of_Z (Zpos p)))
  end.

#[global] Instance Num_float : Num PrimFloat.float := {|
  lit := fun q => PrimFloat.div (float_of_Z (Qnum q)) (float_of_Z (Zpos (Qden q)));
  add := PrimFloat.add;
  sub := PrimFloat.sub;
  mul := PrimFloat.mul;
  div := PrimFloat.div;
  neg := PrimFloat.opp;
  ltb := PrimFloat.ltb
|}.

(** ** three.js *)

Module THREE.

Record Vector3 (num : Type) := mkVector3 { x : num; y : num; z : num }.

(** [new THREE.Quaternion()] and [q.setFromAxisAngle(axis, angle)]. *)
Inductive Quaternion (num : Type) :=
| Identity
| FromAxisAngle (axis : Vector3 num) (angle : num).
Arguments Identity {num}.

(** A vector as handed to the physics engine: its components, or a vector
    on which [applyQuaternion(q)] was called. *)
Inductive Vec (num : Type) :=
| Plain (v : Vector3 num)
| ApplyQuaternion (v : Vector3 num) (q : Quaternion num).

(** The orientation of an [Object3D]: [quaternion.copy(q)], or
    [rotation.copy(e)] where [e] is [Euler.setFromQuaternion(q, "YXZ")]
    with [dy] added to its [y]. *)
Inductive Rotation (num : Type) :=
| OfQuaternion (q : Quaternion num)
| EulerYXZ (q : Quaternion num) (dy : num).

Section Three.
Context {num : Type} {N : Num num}.
Local Open Scope num_scope.

(** [v.set(x, y, z)] *)
Definition set (x y z : num) : Vector3 num := mkVector3 x y z.

(** [v.multiplyScalar(s)] *)
Definition multiplyScalar (v : Vector3 num) (s : num) : Vector3 num :=
  mkVector3 (x v * s) (y v * s) (z v * s).

(** [v.add(w)] *)
Definition addVector (v w : Vector3 num) : Vector3 num :=
  mkVector3 (x v + x w) (y v + y w) (z v + z w).

(** [v.lengthSq()] *)
Definition lengthSq (v : Vector3 num) : num :=
  x v * x v + y v * y v + z v * z v.

(** [q.setFromAxisAngle(axis, angle)], as (x, y, z, w), for [sin] and
    [cos] standing for [Math.sin] and [Math.cos]; [new Quaternion()] is
    (0, 0, 0, 1). *)
Definition components (sin cos : num -> num) (q : Quaternion num)
  : num * num * num * num :=
  match q with
  | Identity => (lit 0, lit 0, lit 0, lit 1)
  | FromAxisAngle axis angle =>
    let halfAngle := angle / lit 2 in
    let s := sin halfAngle in
    (x axis * s, y axis * s, z axis * s, cos halfAngle)
  end.

(** [v.applyQuaternion(q)]: [v + q.w * t + cross(q.xyz, t)] with
    [t = 2 * cross(q.xyz, v)]. *)
Definition applyQuaternion (sin cos : num -> num) (v : Vector3 num)
           (q : Quaternion num) : Vector3 num :=
  let '(qx, qy, qz, qw) := components sin cos q in
  let vx := x v in
  let vy := y v in
  let vz := z v in
  let tx := lit 2 * (qy * vz - qz * vy) in
  let ty := lit 2 * (qz * vx - qx * vz) in
  let tz := lit 2 * (qx * vy - qy * vx) in
  mkVector3 (vx + qw * tx + qy * tz - qz * ty)
            (vy + qw * ty + qz * tx - qx * tz)
            (vz + qw * tz + qx * ty - qy * tx).

(** The components of a vector handed to the physics engine. *)
Definition valueOf (sin cos : num -> num) (v : Vec num) : Vector3 num :=
  match v with
  | Plain v => v
  | ApplyQuaternion v q => applyQuaternion sin cos v q
  end.

(** [v.length() > 0], on the vector as it is when the test is made (after
    the rotation, for a rotated vector).  [length] is the square root of
    [lengthSq] and is positive exactly when [lengthSq] is, in exact
    arithmetic and in binary64. *)
Definition length_positive (sin cos : num -> num) (v : Vec num) : bool :=
  lengthSq (valueOf sin cos v) >? lit 0.

(** [THREE.MathUtils.lerp(x, y, t)]: [return (1 - t) * x + t * y]. *)
Definition lerp (x y t : num) : num := (lit 1 - t) * x + t * y.

End Three.
End THREE.

(** ** The vehicle *)

Section Vehicle.
Context {num : Type} {N : Num num}.
Local Open Scope num_scope.

Definition up : THREE.Vector3 num := THREE.mkVector3 (lit 0) (lit 1) (lit 0).
Definition maxForwardSpeed : num := lit 5.
Definition maxReverseSpeed : num := lit (-4).
Definition CAMERA_lookAt : THREE.Vector3 num := THREE.mkVector3 (lit 0) (lit 0.07) (lit 0).

(** [GameControls], the snapshot [getKeyboardControls()] returns. *)
Record GameControls := mkControls {
  forward : bool; back : bool; left : bool; right : bool; drift : bool
}.

(** What the rigid body answers during one callback: [translation()] and
    [linvel()] (the latter is read after the drive impulse was applied). *)
Record RapierRigidBody := mkBody {
  translation : THREE.Vector3 num;
  linvel : THREE.Vector3 num
}.

Record Ray := mkRay { origin : THREE.Vector3 num; dir : THREE.Vector3 num }.

(** The [useRef] cells of [Car] and the shared [vectors] object. *)
Record Refs := mkRefs {
  wheelRotation : num;              (* vectors.wheelRotation.current *)
  steeringInput : num;              (* vectors.steeringInput.current *)
  steeringAngle : num;
  steeringAngleQuat : THREE.Quaternion num;
  driftSteeringAngle : num;
  driftingLeft : bool;
  driftingRight : bool;
  driftSteeringVisualAngle : num;
  speed : num;
  grounded : bool
}.

(** The state at mount. *)
Definition initial : Refs := {|
  wheelRotation := lit 0;
  steeringInput := lit 0;
  steeringAngle := lit 0;
  steeringAngleQuat := THREE.Identity;
  driftSteeringAngle := lit 0;
  driftingLeft := false;
  driftingRight := false;
  driftSteeringVisualAngle := lit 0;
  speed := lit 0;
  grounded := false
|}.

(** What one physics step sees: the controls, [bodyRef.current] ([None]
    is [null]) and the answer of [world.castRay] ([None] is [null],
    [Some toi] a hit). *)
Record StepEnv := mkStepEnv {
  controls : GameControls;
  bodyRef : option RapierRigidBody;
  castRay : Ray -> num -> bool -> option num
}.

(** A call [bodyRef.current.applyImpulse(impulse, wake)] in the text of the
    callback; [underLengthTest] tells that it stands under
    [if (impulse.length() > 0)]. *)
Record Call := mkCall {
  underLengthTest : bool;
  callImpulse : THREE.Vec num;
  callWake : bool
}.

(** A callback returns, or throws the TypeError of a property read on
    [null]; either way it leaves the cells in some state. *)
Inductive Outcome :=
| Returned (r : Refs) (applyImpulse : list Call)
| TypeError (r : Refs).

Definition refsOf (o : Outcome) : Refs :=
  match o with Returned r _ => r | TypeError r => r end.

(** [Number(b)] on a boolean. *)
Definition Number (b : bool) : num := if b then lit 1 else lit 0.

(** Line 120: [_impulse.set(0, 0, -speed.current).multiplyScalar(5)]. *)
Definition rawImpulse (r : Refs) : THREE.Vector3 num :=
  THREE.multiplyScalar (THREE.set (lit 0) (lit 0) (- speed r)) (lit 5).

(** Lines 135-139: the steering input and its sign. *)
Definition steeringInputOf (c : GameControls) (impulse : THREE.Vector3 num) : num :=
  let s := Number (left c) - Number (right c) in
  if THREE.z impulse >? lit 0 then s * lit (-1) else s.

(** Lines 145-169: the drift flags, as (driftingLeft, driftingRight). *)
Definition driftFlags (c : GameControls) (grounded : bool) (speed : num)
           (dl dr : bool) : bool * bool :=
  let '(dl, dr) := if negb (drift c) then (false, false) else (dl, dr) in
  if drift c && grounded && (lit 1 <? speed) then
    let dl := if left c then true else dl in
    let dr := if right c then true else dr in
    if (dl && dr) || (negb (left c) && negb (right c))
    then (false, false)
    else (dl, dr)
  else (false, false).

(** Lines 172-178. *)
Definition driftSteeringTargetOf (dl dr : bool) : num :=
  if dl then lit 1 else if dr then lit (-1) else lit 0.

(** Lines 193-199. *)
Definition speedTargetOf (c : GameControls) : num :=
  if forward c then maxForwardSpeed
  else if back c then maxReverseSpeed
  else lit 0.

(** The callback of [useBeforePhysicsStep], lines 116-217, statement by
    statement.  [bodyRef.current] is first read at line 124; the only
    write before it is to the scratch vector [_impulse]. *)
Definition beforePhysicsStep (r : Refs) (e : StepEnv) : Outcome :=
  let c := controls e in
  let impulse := rawImpulse r in
  match bodyRef e with
  | None => TypeError r
  | Some body =>
    let groundRayResult :=
      castRay e (mkRay (translation body) (THREE.mkVector3 (lit 0) (lit (-1)) (lit 0)))
              (lit 1) false in
    let grounded' := match groundRayResult with Some _ => true | None => false end in
    let steeringInput' := steeringInputOf c impulse in
    let steeringAngle1 := steeringAngle r + steeringInput' * lit 0.02 in
    let '(driftingLeft', driftingRight') :=
      driftFlags c grounded' (speed r) (driftingLeft r) (driftingRight r) in
    let driftSteeringTarget := driftSteeringTargetOf driftingLeft' driftingRight' in
    let driftSteeringAngle' :=
      THREE.lerp (driftSteeringAngle r) driftSteeringTarget (lit 0.5) in
    let steeringAngle' := steeringAngle1 + driftSteeringAngle' * lit 0.01 in
    let steeringAngleQuat' := THREE.FromAxisAngle up steeringAngle' in
    let impulse' := THREE.ApplyQuaternion impulse steeringAngleQuat' in
    let speed' := THREE.lerp (speed r) (speedTargetOf c) (lit 0.03) in
    let drive := mkCall true impulse' true in
    let damping :=
      mkCall false
             (THREE.Plain (THREE.mkVector3 (- THREE.x (linvel body) * lit 1.5)
                                           (lit 0)
                                           (- THREE.z (linvel body) * lit 1.5)))
             true in
    Returned {|
        wheelRotation := wheelRotation r;
        steeringInput := steeringInput';
        steeringAngle := steeringAngle';
        steeringAngleQuat := steeringAngleQuat';
        driftSteeringAngle := driftSteeringAngle';
        driftingLeft := driftingLeft';
        driftingRight := driftingRight';
        driftSteeringVisualAngle := driftSteeringVisualAngle r;
        speed := speed';
        grounded := grounded'
      |} [drive; damping]
  end.

(** The drive impulse of a step: the impulse of the call under the length
    test, the first of the two calls. *)
Definition driveImpulse (o : Outcome) : option (THREE.Vec num) :=
  match o with
  | Returned _ [drive; _] =>
      if underLengthTest drive then Some (callImpulse drive) else None
  | _ => None
  end.

(** The calls the callback makes, given the answer of the length test:
    a call under the test is made when the test holds of its impulse. *)
Definition callsMade (lengthPositive : THREE.Vec num -> bool) (calls : list Call)
  : list (THREE.Vec num * bool) :=
  flat_map (fun call =>
              if underLengthTest call && negb (lengthPositive (callImpulse call))
              then []
              else [(callImpulse call, callWake call)])
           calls.

(** The calls of an outcome, for [Math.sin] and [Math.cos]. *)
Definition impulsesApplied (sin cos : num -> num) (o : Outcome)
  : list (THREE.Vec num * bool) :=
  match o with
  | Returned _ calls => callsMade (THREE.length_positive sin cos) calls
  | TypeError _ => []
  end.

(** The state of the cells after one step, and after a sequence of steps
    (an exception ends the callback, not the loop that calls it). *)
Definition step (r : Refs) (e : StepEnv) : Refs := refsOf (beforePhysicsStep r e).

Definition run (r : Refs) (es : list StepEnv) : Refs := fold_left step es r.

(** What the render callback writes besides the cells: the transform of
    [groupRef.current] and the camera. *)
Record Scene := mkScene {
  group_position : THREE.Vector3 num;
  group_rotation : THREE.Rotation num;
  camera_position : THREE.Vector3 num;
  camera_lookAt : THREE.Vector3 num
}.

(** The callback of [useFrame], lines 221-257; [delta] is the frame time. *)
Definition useFrame (r : Refs) (s : Scene) (body : option RapierRigidBody)
           (delta : num) : Refs * Scene :=
  match body with
  | None => (r, s)
  | Some body =>
    let bodyPosition := translation body in
    let driftSteeringVisualAngle' :=
      THREE.lerp (driftSteeringVisualAngle r) (driftSteeringAngle r) (delta * lit 10) in
    let rotation :=
      THREE.EulerYXZ (steeringAngleQuat r) (driftSteeringVisualAngle' * lit 0.4) in
    let wheelRotation' := wheelRotation r - (speed r / lit 10) * delta * lit 100 in
    let cameraPosition :=
      THREE.addVector bodyPosition (THREE.mkVector3 (lit 1) (lit 1) (lit 1)) in
    ({| wheelRotation := wheelRotation';
        steeringInput := steeringInput r;
        steeringAngle := steeringAngle r;
        steeringAngleQuat := steeringAngleQuat r;
        driftSteeringAngle := driftSteeringAngle r;
        driftingLeft := driftingLeft r;
        driftingRight := driftingRight r;
        driftSteeringVisualAngle := driftSteeringVisualAngle';
        speed := speed r;
        grounded := grounded r |},
     {| group_position := bodyPosition;
        group_rotation := rotation;
        camera_position := cameraPosition;
        camera_lookAt := THREE.addVector bodyPosition CAMERA_lookAt |})
  end.

End Vehicle.

Arguments GameControls : clear implicits.
Arguments RapierRigidBody : clear implicits.
Arguments Ray : clear implicits.
Arguments Refs : clear implicits.
Arguments StepEnv : clear implicits.
Arguments Outcome : clear implicits.
Arguments Call : clear implicits.
Arguments Scene : clear implicits.

(** ** Inputs and runs of the examples *)

(** The controls of the examples. *)
Definition noKeys : GameControls := mkControls false false false false false.
Definition forwardOnly : GameControls := mkControls true false false false false.
Definition driftLeft : GameControls := mkControls false false true false true.

Section Examples.
Context {num : Type} {N : Num num}.

(** A body at rest at the origin, and a world whose ray always hits (at
    distance 0.1). *)
Definition bodyAtRest : RapierRigidBody num :=
  mkBody (THREE.mkVector3 (lit 0) (lit 0) (lit 0))
         (THREE.mkVector3 (lit 0) (lit 0) (lit 0)).
Definition onGround : Ray num -> num -> bool -> option num :=
  fun _ _ _ => Some (lit 0.1).

(** A step on the ground with the given controls. *)
Definition groundStep (c : GameControls) : StepEnv num :=
  mkStepEnv c (Some bodyAtRest) onGround.

(** The state at mount, already moving at speed [v]. *)
Definition movingAt (v : num) : Refs num := {|
  wheelRotation := lit 0;
  steeringInput := lit 0;
  steeringAngle := lit 0;
  steeringAngleQuat := THREE.Identity;
  driftSteeringAngle := lit 0;
  driftingLeft := false;
  driftingRight := false;
  driftSteeringVisualAngle := lit 0;
  speed := v;
  grounded := false
|}.
End Examples.

Local Open Scope Q_scope.

(** Forward and drift held, with right or with left. *)
Definition forwardDriftRight : GameControls := mkControls true false false true true.
Definition forwardDriftLeft : GameControls := mkControls true false true false true.

(** The state after eight steps of forward and one of forward, drift and
    right: DriftingRight, at a speed above 1. *)
Definition afterDriftRight : Refs Q :=
  run initial (repeat (groundStep forwardOnly) 8 ++ [groundStep forwardDriftRight]).

(** ** Powers *)

Fixpoint qpow (q : Q) (n : nat) : Q :=
  match n with
  | O => 1
  | S k => q * qpow q k
  end.

(** Steps in which only forward is held, one per body and ray answer. *)
Definition forwardSteps
           (bws : list (RapierRigidBody Q * (Ray Q -> Q -> bool -> option Q)))
  : list (StepEnv Q) :=
  map (fun bw => mkStepEnv forwardOnly (Some (fst bw)) (snd bw)) bws.

(** Steps on the ground in which drift and left are held, one per body. *)
Definition driftLeftSteps (bs : list (RapierRigidBody Q)) : list (StepEnv Q) :=
  map (fun b => mkStepEnv driftLeft (Some b) onGround) bs.

(** Two vectors with equal components. *)
Definition sameVector (v v' : THREE.Vector3 Q) : Prop :=
  THREE.x v == THREE.x v' /\ THREE.y v == THREE.y v' /\ THREE.z v == THREE.z v'.

(** ** The two callbacks of a vehicle, interleaved *)

(** The browser runs one callback at a time, to its end: a sequence of
    events, each a physics step or a rendered frame. *)
Inductive Event (num : Type) :=
| PhysicsStep (e : StepEnv num)
| RenderFrame (body : option (RapierRigidBody num)) (delta : num).

Section Schedule.
Context {num : Type} {N : Num num}.

Definition dispatch (st : Refs num * Scene num) (ev : Event num)
  : Refs num * Scene num :=
  match ev with
  | PhysicsStep e => (step (fst st) e, snd st)
  | RenderFrame body delta => useFrame (fst st) (snd st) body delta
  end.

Definition schedule (st : Refs num * Scene num) (evs : list (Event num))
  : Refs num * Scene num :=
  fold_left dispatch evs st.

(** The physics steps of a sequence of events, in order. *)
Fixpoint physicsSteps (evs : list (Event num)) : list (StepEnv num) :=
  match evs with
  | [] => []
  | PhysicsStep e :: evs => e :: physicsSteps evs
  | RenderFrame _ _ :: evs => physicsSteps evs
  end.

(** The cells the physics callback writes, and the cells the render
    callback writes. *)
Definition sameSimulation (r r' : Refs num) : Prop :=
  steeringInput r = steeringInput r' /\
  steeringAngle r = steeringAngle r' /\
  steeringAngleQuat r = steeringAngleQuat r' /\
  driftSteeringAngle r = driftSteeringAngle r' /\
  driftingLeft r = driftingLeft r' /\
  driftingRight r = driftingRight r' /\
  speed r = speed r' /\
  grounded r = grounded r'.

Definition sameVisual (r r' : Refs num) : Prop :=
  wheelRotation r = wheelRotation r' /\
  driftSteeringVisualAngle r = driftSteeringVisualAngle r'.

(** [bodyRef.current] is set. *)
Definition bodyIsSet (e : StepEnv num) : bool :=
  match bodyRef e with Some _ => true | None => false end.


End Schedule.


(** ** The wheels (CarBody) *)

Module CarBody.

(** [VehicleVectors]: the two cells a [CarBody] is given. *)
Record VehicleVectors (num : Type) := mkVehicleVectors {
  wheelRotation : num;       (* v.wheelRotation.current *)
  steeringInput : num        (* v.steeringInput.current *)
}.

(** The [order] of a three.js [Euler]. *)
Inductive EulerOrder := XYZ | YXZ | ZXY | ZYX | YZX | XZY.

(** The [rotation] of a wheel group, the only part the callback writes. *)
Record Object3D (num : Type) := mkObject3D {
  rotation_order : EulerOrder;
  rotation_x : num;
  rotation_y : num;
  rotation_z : num
}.

(** The callback returns, or throws on the first front wheel it finds
    missing; [wheels] is [wheelsRef.current] as it leaves it. *)
Inductive FrameOutcome (num : Type) :=
| FrameReturned (wheels : list (option (Object3D num)))
| FrameTypeError (wheels : list (option (Object3D num))).

Section CarBody.
Context {num : Type} {N : Num num}.
Local Open Scope num_scope.

(** [a[i] = v] on an index the array has. *)
Fixpoint setIndex {A : Type} (a : list A) (i : nat) (v : A) : list A :=
  match a, i with
  | [], _ => []
  | _ :: a', O => v :: a'
  | x :: a', S i' => x :: setIndex a' i' v
  end.

(** The body of [forEach], lines 289-294: a missing wheel is skipped. *)
Definition spin (v : VehicleVectors num) (wheel : option (Object3D num))
  : option (Object3D num) :=
  match wheel with
  | None => None
  | Some w => Some {| rotation_order := YXZ;
                      rotation_x := wheelRotation v;
                      rotation_y := rotation_y w;
                      rotation_z := rotation_z w |}
  end.

(** [wheelsRef.current[i]!.rotation.y = yaw]: [None] is the TypeError of
    reading [rotation] on [null] or [undefined]. *)
Definition setYaw (wheels : list (option (Object3D num))) (i : nat) (yaw : num)
  : option (list (option (Object3D num))) :=
  match nth_error wheels i with
  | Some (Some w) =>
      Some (setIndex wheels i
              (Some {| rotation_order := rotation_order w;
                       rotation_x := rotation_x w;
                       rotation_y := yaw;
                       rotation_z := rotation_z w |}))
  | _ => None
  end.

(** The callback of [useFrame] in [CarBody], lines 288-298. *)
Definition useFrame (v : VehicleVectors num) (wheels : list (option (Object3D num)))
  : FrameOutcome num :=
  let wheels1 := map (spin v) wheels in
  match setYaw wheels1 1 (steeringInput v * lit 0.5) with
  | None => FrameTypeError wheels1
  | Some wheels2 =>
    match setYaw wheels2 0 (steeringInput v * lit 0.5) with
    | None => FrameTypeError wheels2
    | Some wheels3 => FrameReturned wheels3
    end
  end.

(** A wheel is mounted at index [i]. *)
Definition mounted (wheels : list (option (Object3D num))) (i : nat) : bool :=
  match nth_error wheels i with Some (Some _) => true | _ => false end.

End CarBody.
End CarBody.

(** The [vectors] object [Car] hands to its [CarBody]. *)
Definition vectorsOf {num : Type} (r : Refs num) : CarBody.VehicleVectors num :=
  CarBody.mkVehicleVectors (wheelRotation r) (steeringInput r).

(** ** The other players (other-players.tsx) *)

Module OtherPlayers.

(** [rotation: { x, y, z, w }] *)
Record XYZW (num : Type) := mkXYZW { qx : num; qy : num; qz : num; qw : num }.

Record Presence (num : Type) := mkPresence {
  name : String.string;
  position : THREE.Vector3 num;
  rotation : XYZW num
}.

(** A [Record<string, Presence>]: its entries in the order of
    [Object.keys]. *)
Definition Users (num : Type) : Type := list (String.string * Presence num).

(** The part of a parsed message the handler reads: [type] and
    [payload.users]. *)
Record MessageJson (num : Type) := mkMessageJson {
  type : String.string;
  users : Users num
}.

(** The position and quaternion of a player's group. *)
Record Group (num : Type) := mkGroup {
  group_position : THREE.Vector3 num;
  group_quaternion : XYZW num
}.

(** The frame callback of an [OtherPlayer] returns, leaving
    [playerRef.current] as given, or throws a TypeError. *)
Inductive FrameOutcome (num : Type) :=
| FrameReturned (playerRef : option (Group num))
| FrameTypeError.

(** The objects of type [Record<string, Presence>] by address, the address
    in [presenceRef.current], the state [playerIds] and
    [playerIdsRef.current]. *)
Record State (num : Type) := mkState {
  heap : list (Users num);
  presenceRef : nat;
  playerIds : list String.string;
  playerIdsRef : list String.string
}.

Section OtherPlayers.
Context {num : Type}.

(** [Object.keys(o)] *)
Definition keys (o : Users num) : list String.string := map fst o.

(** The own property [k] of [o], an entry of the parsed message; [None]
    when [o] has no such entry. *)
Fixpoint get (o : Users num) (k : String.string) : option (Presence num) :=
  match o with
  | [] => None
  | (k', p) :: o' => if String.eqb k' k then Some p else get o' k
  end.

(** The names of the members of [Object.prototype], which an object made
    by [JSON.parse] or by [{}] inherits: each is a function, except
    [__proto__], which reads as [Object.prototype] itself. *)
Definition ObjectPrototype : list String.string :=
  ["constructor"; "__defineGetter__"; "__defineSetter__"; "hasOwnProperty";
   "__lookupGetter__"; "__lookupSetter__"; "isPrototypeOf";
   "propertyIsEnumerable"; "toString"; "valueOf"; "__proto__";
   "toLocaleString"]%string.

Definition inherited (k : String.string) : bool :=
  existsb (String.eqb k) ObjectPrototype.

(** The value of a property read [o[k]]: an own entry, else a member of
    [Object.prototype] (truthy, and with no [position]), else
    [undefined]. *)
Inductive Property :=
| Own (p : Presence num)
| Inherited
| Undefined.

Definition read (o : Users num) (k : String.string) : Property :=
  match get o k with
  | Some p => Own p
  | None => if inherited k then Inherited else Undefined
  end.

(** [delete o[k]] *)
Definition delete (o : Users num) (k : String.string) : Users num :=
  filter (fun kp => negb (String.eqb (fst kp) k)) o.

(** A new object, its content at an address, and a write through an
    address. *)
Definition alloc (h : list (Users num)) (o : Users num) : list (Users num) * nat :=
  (h ++ [o], length h).

Definition load (h : list (Users num)) (l : nat) : Users num := nth l h [].

Definition store (h : list (Users num)) (l : nat) (o : Users num) : list (Users num) :=
  CarBody.setIndex h l o.

(** At mount: [presenceRef.current] is [{}], [playerIds] is [[]]. *)
Definition atMount : State num :=
  {| heap := [[]]; presenceRef := 0%nat; playerIds := []; playerIdsRef := [] |}.

(** [a.includes(k)] *)
Definition includes (a : list String.string) (k : String.string) : bool :=
  existsb (String.eqb k) a.

(** The [changed] flag of lines 57-66. *)
Definition changedIds (connIds current : list String.string) : bool :=
  let changed := false in
  let changed :=
    if negb (Nat.eqb (length connIds) (length current)) then true else changed in
  fold_left (fun changed connId =>
               if negb (includes current connId) then true else changed)
            connIds changed.

(** [messageHandler], lines 38-72, on a parsed message.  The object
    [payload.users] is the one [presenceRef.current] is set to, and the
    one [delete] then writes. *)
Definition messageHandler (selfId : String.string) (st : State num) (messageJson : MessageJson num)
  : State num :=
  if String.eqb (type messageJson) "update-presence"%string then
    let '(heap1, presenceMessage) := alloc (heap st) (users messageJson) in
    let presenceRef' := presenceMessage in
    let heap2 := store heap1 presenceMessage (delete (load heap1 presenceMessage) selfId) in
    let connIds := keys (load heap2 presenceMessage) in
    let changed := changedIds connIds (playerIdsRef st) in
    {| heap := heap2;
       presenceRef := presenceRef';
       playerIds := if changed then connIds else playerIds st;
       playerIdsRef := playerIdsRef st |}
  else st.

(** A render of [OtherPlayers], line 30: [playerIdsRef.current = playerIds]. *)
Definition render (st : State num) : State num :=
  {| heap := heap st;
     presenceRef := presenceRef st;
     playerIds := playerIds st;
     playerIdsRef := playerIds st |}.

(** A message, and the render that follows it. *)
Definition receive (selfId : String.string) (st : State num) (m : MessageJson num) : State num :=
  render (messageHandler selfId st m).

(** [presenceRef.current] *)
Definition presence (st : State num) : Users num := load (heap st) (presenceRef st).

(** The callback of [useFrame] in [OtherPlayer], lines 95-112, on
    [playerRef.current] ([None] is [null]).  The guard of line 98 passes
    any truthy value; reading [presence.position.x] on a value with no
    [position] throws, before anything is written. *)
Definition useFrame (st : State num) (id : String.string) (playerRef : option (Group num))
  : FrameOutcome num :=
  match read (presence st) id with
  | Undefined => FrameReturned playerRef
  | Inherited =>
    match playerRef with
    | None => FrameReturned None
    | Some _ => FrameTypeError num
    end
  | Own p =>
    match playerRef with
    | None => FrameReturned None
    | Some _ =>
      FrameReturned
        (Some {| group_position :=
                   THREE.mkVector3 (THREE.x (position p)) (THREE.y (position p))
                                   (THREE.z (position p));
                 group_quaternion :=
                   mkXYZW (qx (rotation p)) (qy (rotation p)) (qz (rotation p))
                          (qw (rotation p)) |})
    end
  end.

(** The [vectors] of an [OtherPlayer], lines 114-120; nothing writes them. *)
Definition vectors {N : Num num} : CarBody.VehicleVectors num :=
  CarBody.mkVehicleVectors (lit 0) (lit 0).

End OtherPlayers.
End OtherPlayers.

(** More controls for the examples. *)
Definition backOnly : GameControls := mkControls false true false false false.
Definition leftOnly : GameControls := mkControls false false true false false.

(** A frame time of at most a tenth of a second, for a rendered frame. *)
Definition shortFrame (ev : Event Q) : Prop :=
  match ev with
  | PhysicsStep _ => True
  | RenderFrame _ delta => 0 <= delta <= 0.1
  end.

(** Inputs for the examples of the other players and of the frames. *)
Definition somePresence (n : String.string) : OtherPlayers.Presence Q :=
  OtherPlayers.mkPresence n (THREE.mkVector3 1 0 2) (OtherPlayers.mkXYZW 0 0 0 1).

Definition threeUsers : OtherPlayers.Users Q :=
  [("me"%string, somePresence "me"%string);
   ("ann"%string, somePresence "ann"%string);
   ("bob"%string, somePresence "bob"%string)].

Definition sceneAtOrigin : Scene Q :=
  mkScene (THREE.mkVector3 0 0 0) (THREE.OfQuaternion THREE.Identity)
          (THREE.mkVector3 0 0 5) (THREE.mkVector3 0 0 0).

(** What holds between two messages, once [OtherPlayers] has rendered. *)
Definition rendered {num : Type} (selfId : String.string) (st : OtherPlayers.State num)
  : Prop :=
  OtherPlayers.playerIdsRef st = OtherPlayers.playerIds st /\
  Permutation (OtherPlayers.playerIds st) (OtherPlayers.keys (OtherPlayers.presence st)) /\
  NoDup (OtherPlayers.keys (OtherPlayers.presence st)) /\
  ~ In selfId (OtherPlayers.keys (OtherPlayers.presence st)).

(** ** Runs *)

Section Runs.
Context {num : Type} {N : Num num}.

Lemma run_nil (r : Refs num) : run r [] = r.
Proof. reflexivity. Qed.

Lemma run_cons (r : Refs num) e es : run r (e :: es) = run (step r e) es.
Proof. reflexivity. Qed.

(** A property of the cells that every step keeps holds along every run. *)
Lemma run_invariant (P : Refs num -> Prop) :
  (forall r e, P r -> P (step r e)) ->
  forall es r, P r -> P (run r es).
Proof.
  intros Hstep es. induction es as [|e es IH]; intros r Hr.
  - exact Hr.
  - rewrite run_cons. apply IH, Hstep, Hr.
Qed.

(** A step that throws leaves the cells as they were. *)
Lemma step_null_body (r : Refs num) c w : step r (mkStepEnv c None w) = r.
Proof. reflexivity. Qed.

End Runs.

(** ** Exact arithmetic *)

(** Unfolds the interface at [Q], leaving [Qplus], [Qmult], ... *)
Ltac at_Q :=
  cbv beta iota delta [lit add sub mul div neg ltb Num_Q
                       maxForwardSpeed maxReverseSpeed] in *.

(** Reads the literals only. *)
Ltac lit_Q := change (@lit Q Num_Q) with (fun q : Q => q) in *; cbv beta in *.

Lemma ltb_Q (a b : Q) : ltb a b = true <-> a < b.
Proof.
  at_Q. rewrite negb_true_iff, <- not_true_iff_false, Qle_bool_iff.
  split; [apply Qnot_le_lt | apply Qlt_not_le].
Qed.

Lemma ltb_Q_false (a b : Q) : ltb a b = false <-> b <= a.
Proof.
  at_Q. rewrite negb_false_iff. apply Qle_bool_iff.
Qed.

(** [lerp] is the blend the specification writes [x += (y - x) * t]. *)
Lemma lerp_blend (x y t : Q) : THREE.lerp x y t == x + (y - x) * t.
Proof. unfold THREE.lerp. at_Q. ring. Qed.

(** A blend with a factor in [0, 1] stays between its two ends. *)
Lemma lerp_between (lo hi x y t : Q) :
  0 <= t <= 1 -> lo <= x <= hi -> lo <= y <= hi ->
  lo <= THREE.lerp x y t <= hi.
Proof.
  intros Ht Hx Hy. unfold THREE.lerp. at_Q.
  assert (H1 : 0 <= (1 - t) * (x - lo)) by (apply Qmult_le_0_compat; lra).
  assert (H2 : 0 <= (1 - t) * (hi - x)) by (apply Qmult_le_0_compat; lra).
  assert (H3 : 0 <= t * (y - lo)) by (apply Qmult_le_0_compat; lra).
  assert (H4 : 0 <= t * (hi - y)) by (apply Qmult_le_0_compat; lra).
  split; lra.
Qed.

Lemma speedTargetOf_cases (c : GameControls) :
  speedTargetOf (num := Q) c = 5 \/ speedTargetOf (num := Q) c = -4 \/
  speedTargetOf (num := Q) c = 0.
Proof.
  unfold speedTargetOf. at_Q. destruct (forward c), (back c); auto.
Qed.

(** The cells a returning step writes, one lemma per cell. *)
Section StepCells.
Context {num : Type} {N : Num num}.
Variables (r : Refs num) (c : GameControls) (b : RapierRigidBody num)
          (w : Ray num -> num -> bool -> option num).
Let e := mkStepEnv c (Some b) w.
Let g := match w (mkRay (translation b)
                        (THREE.mkVector3 (lit 0) (lit (-1)) (lit 0)))
                 (lit 1) false with Some _ => true | None => false end.

Lemma step_speed : speed (step r e) = THREE.lerp (speed r) (speedTargetOf c) (lit 0.03).
Proof.
  unfold step, beforePhysicsStep; cbn [bodyRef e].
  destruct (driftFlags _ _ _ _ _); reflexivity.
Qed.

Lemma step_flags :
  (driftingLeft (step r e), driftingRight (step r e)) =
  driftFlags c g (speed r) (driftingLeft r) (driftingRight r).
Proof.
  unfold step, beforePhysicsStep; cbn [bodyRef e controls castRay].
  fold g. destruct (driftFlags _ _ _ _ _); reflexivity.
Qed.

Lemma step_grounded : grounded (step r e) = g.
Proof.
  unfold step, beforePhysicsStep; cbn [bodyRef e controls castRay].
  fold g. destruct (driftFlags _ _ _ _ _); reflexivity.
Qed.

Lemma step_steeringInput :
  steeringInput (step r e) = steeringInputOf c (rawImpulse r).
Proof.
  unfold step, beforePhysicsStep; cbn [bodyRef e controls castRay].
  destruct (driftFlags _ _ _ _ _); reflexivity.
Qed.

Lemma step_driftSteeringAngle :
  driftSteeringAngle (step r e) =
  THREE.lerp (driftSteeringAngle r)
             (driftSteeringTargetOf (driftingLeft (step r e)) (driftingRight (step r e)))
             (lit 0.5).
Proof.
  unfold step, beforePhysicsStep; cbn [bodyRef e controls castRay].
  destruct (driftFlags _ _ _ _ _); reflexivity.
Qed.

Lemma step_steeringAngle :
  steeringAngle (step r e) =
  add (add (steeringAngle r) (mul (steeringInput (step r e)) (lit 0.02)))
      (mul (driftSteeringAngle (step r e)) (lit 0.01)).
Proof.
  unfold step, beforePhysicsStep; cbn [bodyRef e controls castRay].
  destruct (driftFlags _ _ _ _ _); reflexivity.
Qed.

Lemma step_steeringAngleQuat :
  steeringAngleQuat (step r e) = THREE.FromAxisAngle up (steeringAngle (step r e)).
Proof.
  unfold step, beforePhysicsStep; cbn [bodyRef e controls castRay].
  destruct (driftFlags _ _ _ _ _); reflexivity.
Qed.

Lemma step_calls :
  beforePhysicsStep r e =
  Returned (step r e)
    [mkCall true
            (THREE.ApplyQuaternion (rawImpulse r)
               (THREE.FromAxisAngle up (steeringAngle (step r e))))
            true;
     mkCall false
            (THREE.Plain (THREE.mkVector3 (mul (neg (THREE.x (linvel b))) (lit 1.5))
                                          (lit 0)
                                          (mul (neg (THREE.z (linvel b))) (lit 1.5))))
            true].
Proof.
  unfold step, beforePhysicsStep; cbn [bodyRef e controls castRay].
  destruct (driftFlags _ _ _ _ _); reflexivity.
Qed.

Lemma step_driveImpulse :
  driveImpulse (beforePhysicsStep r e) =
  Some (THREE.ApplyQuaternion (rawImpulse r)
                              (THREE.FromAxisAngle up (steeringAngle (step r e)))).
Proof. rewrite step_calls. reflexivity. Qed.

End StepCells.

(** ** The drift state machine (any arithmetic) *)

Section Drift.
Context {num : Type} {N : Num num}.

(** Whatever the flags were, [driftFlags] never sets both. *)
Lemma driftFlags_exclusive (c : GameControls) g (s : num) dl dr :
  let '(dl', dr') := driftFlags c g s dl dr in dl' && dr' = false.
Proof.
  unfold driftFlags.
  destruct (drift c), g, (ltb (lit 1) s), (left c), (right c), dl, dr; reflexivity.
Qed.

Lemma step_exclusive (r : Refs num) e :
  driftingLeft r && driftingRight r = false ->
  driftingLeft (step r e) && driftingRight (step r e) = false.
Proof.
  intros Hr. destruct e as [c [b|] w].
  - pose proof (step_flags r c b w) as Hf.
    pose proof (driftFlags_exclusive c
      (match w (mkRay (translation b) (THREE.mkVector3 (lit 0) (lit (-1)) (lit 0)))
               (lit 1) false with Some _ => true | None => false end)
      (speed r) (driftingLeft r) (driftingRight r)) as Hx.
    rewrite <- Hf in Hx. exact Hx.
  - rewrite step_null_body. exact Hr.
Qed.

End Drift.

(** C2.  Along every run from the state at mount, whatever the controls,
    the body and the ray answers of each step (and in either arithmetic),
    [driftingLeft] and [driftingRight] are never both true at the end of a
    step; and a step that returns leaves them exclusive whatever they were
    before it. *)
Theorem drifting_flags_never_both (num : Type) (N : Num num) :
  (forall es : list (StepEnv num),
      driftingLeft (run initial es) && driftingRight (run initial es) = false) /\
  (forall (r : Refs num) c b w,
      let r' := step r (mkStepEnv c (Some b) w) in
      driftingLeft r' && driftingRight r' = false).
Proof.
  split.
  - intros es.
    apply (run_invariant (fun r => driftingLeft r && driftingRight r = false)).
    + intros r e. apply step_exclusive.
    + reflexivity.
  - intros r c b w r'. subst r'.
    pose proof (step_flags r c b w) as Hf.
    match type of Hf with
    | _ = driftFlags ?c ?g ?s ?dl ?dr =>
        pose proof (driftFlags_exclusive c g s dl dr) as Hx
    end.
    rewrite <- Hf in Hx. exact Hx.
Qed.

(** C8.  From any state, a step in which the drift control is released
    (and that returns) ends with both flags false. *)
Theorem release_drift_clears_flags (num : Type) (N : Num num)
        (r : Refs num) (c : GameControls) b w :
  drift c = false ->
  let r' := step r (mkStepEnv c (Some b) w) in
  driftingLeft r' = false /\ driftingRight r' = false.
Proof.
  intros Hd r'. subst r'.
  pose proof (step_flags r c b w) as Hf.
  unfold driftFlags in Hf. rewrite Hd in Hf. cbn in Hf.
  split; congruence.
Qed.


(** C8 at work: one step of drift and left from speed 2 ends DriftingLeft;
    the next step, with every key released, ends NotDrifting. *)
Lemma release_drift_clears_flags_witness :
  let r := step (movingAt 2) (groundStep driftLeft) in
  driftingLeft r = true /\
  driftingLeft (step r (mkStepEnv noKeys (Some bodyAtRest) onGround)) = false /\
  driftingRight (step r (mkStepEnv noKeys (Some bodyAtRest) onGround)) = false.
Proof.
  split; [reflexivity|].
  apply (@release_drift_clears_flags Q Num_Q
           (step (movingAt 2) (groundStep driftLeft)) noKeys bodyAtRest onGround).
  reflexivity.
Defined.

(** C5, as the code has it.  In a step where the drift control is held, the
    ray hits the ground and [1 < speed] (the speed before the step's
    blend): with left held alone the step ends DriftingLeft unless
    [driftingRight] was set before the step, in which case it ends
    NotDrifting; with right held alone it ends DriftingRight unless
    [driftingLeft] was set before, in which case it ends NotDrifting; with
    both or neither held it ends NotDrifting. *)
Theorem drift_step_flags (num : Type) (N : Num num)
        (r : Refs num) (c : GameControls) b w :
  let r' := step r (mkStepEnv c (Some b) w) in
  drift c = true ->
  grounded r' = true ->
  ltb (lit 1) (speed r) = true ->
  (driftingLeft r', driftingRight r') =
  match left c, right c with
  | true, false => if driftingRight r then (false, false) else (true, false)
  | false, true => if driftingLeft r then (false, false) else (false, true)
  | _, _ => (false, false)
  end.
Proof.
  intros r' Hd Hg Hs. subst r'.
  rewrite step_grounded in Hg.
  rewrite step_flags, Hg. unfold driftFlags. rewrite Hd, Hs. cbn.
  destruct (left c), (right c), (driftingLeft r), (driftingRight r); reflexivity.
Qed.

(** C5 at work, from DriftingRight with left held alone. *)
Lemma drift_step_flags_witness :
  let r' := step afterDriftRight (groundStep forwardDriftLeft) in
  (driftingLeft r', driftingRight r') = (false, false).
Proof.
  apply (@drift_step_flags Q Num_Q afterDriftRight forwardDriftLeft bodyAtRest onGround);
    reflexivity.
Defined.

(** C5 fails as stated: from DriftingRight (reached from the state at mount),
    a step with drift and left held and right released, on the ground and
    above speed 1, ends NotDrifting, not DriftingLeft; DriftingLeft comes one
    step later. *)
Lemma drift_left_from_drifting_right :
  let r := afterDriftRight in
  let e := groundStep forwardDriftLeft in
  (driftingLeft r, driftingRight r) = (false, true) /\
  ltb 1 (speed r) = true /\
  (drift (controls e), left (controls e), right (controls e)) = (true, true, false) /\
  grounded (step r e) = true /\
  (driftingLeft (step r e), driftingRight (step r e)) = (false, false) /\
  (driftingLeft (step (step r e) e), driftingRight (step (step r e) e)) = (true, false).
Proof. vm_compute. repeat split. Qed.

(** ** The body reference *)

(** C4 at the failing input.  With [bodyRef.current] null the render
    callback returns at its guard (line 223) and writes nothing, but the
    physics callback has no guard: it throws at line 124, where it reads
    [bodyRef.current.translation()].  No cell was written by then. *)
Theorem null_body_callbacks (num : Type) (N : Num num)
        (r : Refs num) (s : Scene num) (c : GameControls) w (delta : num) :
  useFrame r s None delta = (r, s) /\
  beforePhysicsStep r (mkStepEnv c None w) = TypeError r.
Proof. split; reflexivity. Qed.

(** ** The speed *)

Lemma step_speed_bounds (r : Refs Q) (e : StepEnv Q) :
  maxReverseSpeed <= speed r <= maxForwardSpeed ->
  maxReverseSpeed <= speed (step r e) <= maxForwardSpeed.
Proof.
  intros Hr. destruct e as [c [b|] w].
  - rewrite step_speed. apply lerp_between.
    + at_Q. lra.
    + exact Hr.
    + destruct (speedTargetOf_cases c) as [H|[H|H]]; rewrite H; at_Q; lra.
  - rewrite step_null_body. exact Hr.
Qed.

(** C1.  Along every run from the state at mount (speed 0), whatever the
    controls, the body and the ray answers, the speed stays within
    [maxReverseSpeed, maxForwardSpeed] = [-4, 5]; a step that returns sets
    [speed] to [speed + (speedTarget - speed) * 0.03] with [speedTarget]
    one of 5, -4 and 0. *)
Theorem speed_within_limits :
  (forall es : list (StepEnv Q),
      -4 <= speed (run initial es) <= 5) /\
  (forall (r : Refs Q) c b w,
      speed (step r (mkStepEnv c (Some b) w))
      == speed r + (speedTargetOf c - speed r) * 0.03 /\
      (speedTargetOf (num := Q) c = maxForwardSpeed \/
       speedTargetOf (num := Q) c = maxReverseSpeed \/
       speedTargetOf (num := Q) c = 0)).
Proof.
  split.
  - intros es.
    change (maxReverseSpeed <= speed (run initial es) <= maxForwardSpeed).
    apply (run_invariant
             (fun r : Refs Q => maxReverseSpeed <= speed r <= maxForwardSpeed)).
    + apply step_speed_bounds.
    + at_Q. cbn. lra.
  - intros r c b w. split.
    + rewrite step_speed. apply lerp_blend.
    + apply speedTargetOf_cases.
Qed.

(** ** Steering *)

Lemma rawImpulse_z (r : Refs Q) : THREE.z (rawImpulse r) == - speed r * 5.
Proof. reflexivity. Qed.

Lemma rawImpulse_components (r : Refs Q) :
  THREE.x (rawImpulse r) == 0 /\ THREE.y (rawImpulse r) == 0 /\
  THREE.z (rawImpulse r) == - speed r * 5.
Proof.
  unfold rawImpulse, THREE.multiplyScalar, THREE.set.
  cbn [THREE.x THREE.y THREE.z]. at_Q.
  split; [ring | split; [ring | reflexivity]].
Qed.

(** C9, as the code has it.  In a step that returns, in either
    arithmetic, the steering input is [(left ? 1 : 0) - (right ? 1 : 0)],
    multiplied by -1 exactly when the [z] of the raw impulse
    [(0, 0, -speed) * 5] is positive, and the heading is updated by two
    additions, first of [steeringInput * 0.02], then of
    [driftSteeringAngle * 0.01], both read after the step.  In exact
    arithmetic the [z] is positive exactly when the speed the step starts
    with is negative, and the heading changes by exactly
    [steeringInput * 0.02 + driftSteeringAngle * 0.01]. *)
Theorem steering_integrator :
  (forall (num : Type) (N : Num num) (r : Refs num) (c : GameControls) b w,
      let r' := step r (mkStepEnv c (Some b) w) in
      let lr := sub (if left c then lit 1 else lit 0) (if right c then lit 1 else lit 0) in
      let z := mul (neg (speed r)) (lit 5) in
      THREE.z (rawImpulse r) = z /\
      steeringInput r' = (if ltb (lit 0) z then mul lr (lit (-1)) else lr) /\
      steeringAngle r'
      = add (add (steeringAngle r) (mul (steeringInput r') (lit 0.02)))
            (mul (driftSteeringAngle r') (lit 0.01))) /\
  (forall (r : Refs Q) (c : GameControls) b w,
      let r' := step r (mkStepEnv c (Some b) w) in
      let lr := (if left c then 1 else 0) - (if right c then 1 else 0) in
      (0 < THREE.z (rawImpulse r) <-> speed r < 0) /\
      steeringInput r' == (if Qlt_le_dec (speed r) 0 then - lr else lr) /\
      steeringAngle r' - steeringAngle r
      == steeringInput r' * 0.02 + driftSteeringAngle r' * 0.01).
Proof.
  split.
  - intros num N r c b w r' lr z. subst r' lr z.
    split; [reflexivity|]. split.
    + rewrite step_steeringInput. unfold steeringInputOf, Number. reflexivity.
    + apply step_steeringAngle.
  - intros r c b w r' lr. subst r' lr.
    assert (Hz : 0 < THREE.z (rawImpulse r) <-> speed r < 0).
    { rewrite rawImpulse_z. split; intros; lra. }
    split; [exact Hz|].
    rewrite step_steeringAngle, step_steeringInput.
    unfold steeringInputOf, Number. lit_Q.
    destruct (ltb 0 (THREE.z (rawImpulse r))) eqn:E1;
      destruct (Qlt_le_dec (speed r) 0) as [E2|E2].
    + destruct (left c), (right c); at_Q; split; ring.
    + apply ltb_Q in E1. apply Hz in E1. lra.
    + apply ltb_Q_false in E1. apply Hz in E2. lra.
    + destruct (left c), (right c); at_Q; split; ring.
Qed.

Lemma steeringInputOf_bound (c : GameControls) (v : THREE.Vector3 Q) :
  -1 <= steeringInputOf c v <= 1.
Proof.
  unfold steeringInputOf, Number.
  destruct (ltb _ _), (left c), (right c); at_Q; lra.
Qed.

Lemma driftSteeringTargetOf_bound (dl dr : bool) :
  -1 <= driftSteeringTargetOf (num := Q) dl dr <= 1.
Proof. unfold driftSteeringTargetOf. destruct dl, dr; at_Q; lra. Qed.

(** [driftSteeringAngle] stays in [-1, 1]. *)
Lemma step_driftSteeringAngle_bounds (r : Refs Q) (e : StepEnv Q) :
  -1 <= driftSteeringAngle r <= 1 ->
  -1 <= driftSteeringAngle (step r e) <= 1.
Proof.
  intros Hr. destruct e as [c [b|] w].
  - rewrite step_driftSteeringAngle. apply lerp_between.
    + at_Q. lra.
    + exact Hr.
    + apply driftSteeringTargetOf_bound.
  - rewrite step_null_body. exact Hr.
Qed.


Lemma step_heading_change (r : Refs Q) (e : StepEnv Q) :
  -1 <= driftSteeringAngle r <= 1 ->
  Qabs (steeringAngle (step r e) - steeringAngle r) <= 0.02 + 0.01.
Proof.
  intros Hr. apply Qabs_Qle_condition.
  pose proof (@step_driftSteeringAngle_bounds r e Hr) as Hd.
  destruct e as [c [b|] w].
  - rewrite step_steeringAngle. rewrite step_steeringInput in *.
    pose proof (steeringInputOf_bound c (rawImpulse r)) as Hs.
    at_Q. lra.
  - rewrite step_null_body. lra.
Qed.


(** ** The drive impulse *)

Lemma rawImpulse_lengthSq (r : Refs Q) :
  THREE.lengthSq (rawImpulse r) == 25 * (speed r * speed r).
Proof.
  unfold THREE.lengthSq, rawImpulse, THREE.multiplyScalar, THREE.set.
  cbn [THREE.x THREE.y THREE.z]. at_Q. ring.
Qed.

(** In exact arithmetic the raw impulse has a positive length unless the
    speed is 0. *)
Lemma rawImpulse_positive (r : Refs Q) :
  ltb 0 (THREE.lengthSq (rawImpulse r)) = negb (Qeq_bool (speed r) 0).
Proof.
  destruct (Qeq_bool (speed r) 0) eqn:E; cbn [negb].
  - apply Qeq_bool_iff in E. apply ltb_Q_false.
    rewrite rawImpulse_lengthSq, E. lra.
  - apply Qeq_bool_neq in E. apply ltb_Q.
    rewrite rawImpulse_lengthSq.
    assert (H : 0 < speed r * speed r).
    { destruct (Q_dec (speed r) 0) as [[Hlt|Hgt]|Heq].
      - setoid_replace (speed r * speed r) with ((- speed r) * (- speed r)) by ring.
        apply Qmult_lt_0_compat; lra.
      - apply Qmult_lt_0_compat; lra.
      - contradiction. }
    lra.
Qed.

(** ** Geometric approach to a target *)

Lemma qpow_pos (q : Q) (n : nat) : 0 < q -> 0 < qpow q n.
Proof.
  intros Hq. induction n as [|n IH]; cbn [qpow].
  - lra.
  - apply Qmult_lt_0_compat; assumption.
Qed.

Lemma qpow_succ_le (q : Q) (n : nat) : 0 < q -> q <= 1 -> qpow q (S n) <= qpow q n.
Proof.
  intros H0 H1. cbn [qpow].
  pose proof (qpow_pos n H0) as Hp.
  assert (H : 0 <= (1 - q) * qpow q n) by (apply Qmult_le_0_compat; lra).
  lra.
Qed.

Lemma qpow_antitone (q : Q) (n m : nat) :
  0 < q -> q <= 1 -> (n <= m)%nat -> qpow q m <= qpow q n.
Proof.
  intros H0 H1 Hnm. induction Hnm as [|m Hnm IH].
  - lra.
  - pose proof (qpow_succ_le m H0 H1). lra.
Qed.

(** [0.97^n] tends to 0: it is at most [97 / (97 + 3 n)]. *)
Lemma qpow_97_bound (n : nat) :
  qpow 0.97 n * (97 + 3 * inject_Z (Z.of_nat n)) <= 97.
Proof.
  induction n as [|n IH].
  - apply Qle_bool_iff. reflexivity.
  - rewrite Nat2Z.inj_succ. unfold Z.succ. rewrite inject_Z_plus.
    cbn [qpow].
    set (p := qpow 0.97 n) in *. set (k := inject_Z (Z.of_nat n)) in *.
    assert (Hp : 0 < p) by (apply qpow_pos; lra).
    assert (Hk : 0 <= k).
    { unfold k. change 0 with (inject_Z 0). rewrite <- Zle_Qle. lia. }
    assert (H : 0 <= p * (0.09 * k)) by (apply Qmult_le_0_compat; lra).
    change (inject_Z 1) with 1. lra.
Qed.

Lemma forwardSteps_speed bws (r : Refs Q) :
  5 - speed (run r (forwardSteps bws)) == (5 - speed r) * qpow 0.97 (length bws).
Proof.
  revert r. induction bws as [|[b w] bws IH]; intros r.
  - cbn. ring.
  - cbn [forwardSteps map length qpow fst snd]. rewrite run_cons.
    fold (forwardSteps bws). rewrite IH, step_speed, lerp_blend.
    cbn [speedTargetOf forward forwardOnly]. at_Q. ring.
Qed.

(** C6, as the code has it.  With only forward held, from the state at
    mount, the speed after [n] steps is [5 * (1 - 0.97^n)]: it grows with
    every step, stays below 5, and its distance to 5 is at most
    [485 / (97 + 3 n)].  After 100 steps it lies between 4.76 and 4.77; it is
    above 4.9 from step 129 on, and not at step 128. *)
Theorem forward_speed_after_steps bws :
  let n := length bws in
  let v := speed (run initial (forwardSteps bws)) in
  v == 5 * (1 - qpow 0.97 n) /\
  v < 5 /\
  (forall bw, v < speed (run initial (forwardSteps (bws ++ [bw])))) /\
  (5 - v) * (97 + 3 * inject_Z (Z.of_nat n)) <= 485 /\
  (4.76 < 5 * (1 - qpow 0.97 100) < 4.77) /\
  (5 * (1 - qpow 0.97 128) < 4.9 < 5 * (1 - qpow 0.97 129)).
Proof.
  intros n v. subst n v.
  pose proof (forwardSteps_speed bws initial) as H.
  change (speed initial) with 0 in H.
  pose proof (@qpow_pos 0.97 (length bws)) as Hp.
  assert (Hp' : 0 < qpow 0.97 (length bws)) by (apply Hp; lra).
  split; [lra|]. split; [lra|]. split; [|split; [|split]].
  - intros bw.
    pose proof (forwardSteps_speed (bws ++ [bw]) initial) as H'.
    change (speed initial) with 0 in H'.
    rewrite length_app, Nat.add_comm in H'. cbn [length Nat.add qpow] in H'.
    lra.
  - pose proof (qpow_97_bound (length bws)) as Hb.
    set (k := inject_Z (Z.of_nat (length bws))) in *.
    setoid_replace ((5 - speed (run initial (forwardSteps bws))) * (97 + 3 * k))
      with (5 * (qpow 0.97 (length bws) * (97 + 3 * k))).
    + lra.
    + rewrite H. ring.
  - split; vm_compute; reflexivity.
  - split; vm_compute; reflexivity.
Qed.

(** C6 fails as stated: after 100 steps of forward alone on the ground,
    from speed 0, the speed is below 4.9 (it is about 4.762). *)
Lemma forward_speed_at_100 :
  let r := run (num := Q) initial (repeat (groundStep forwardOnly) 100) in
  speed r < 4.9 /\ 4.76 < speed r < 4.77.
Proof. vm_compute. repeat split. Qed.

(** ** Ten steps of drift and left *)

(** One such step above speed 1, not drifting right: the step ends
    DriftingLeft, halves the distance of [driftSteeringAngle] to 1, and
    multiplies the speed by 0.97. *)
Lemma driftLeft_step (r : Refs Q) (b : RapierRigidBody Q) :
  1 < speed r -> driftingRight r = false ->
  let r' := step r (mkStepEnv driftLeft (Some b) onGround) in
  driftingLeft r' = true /\ driftingRight r' = false /\
  1 - driftSteeringAngle r' == (1 - driftSteeringAngle r) * 0.5 /\
  speed r' == speed r * 0.97.
Proof.
  intros Hs Hdr r'. subst r'.
  pose proof (step_flags r driftLeft b onGround) as Hf.
  unfold driftFlags in Hf. cbn [drift left right driftLeft negb onGround andb] in Hf.
  lit_Q. apply ltb_Q in Hs. rewrite Hs, Hdr in Hf.
  cbn [andb orb negb] in Hf. injection Hf as Hl Hr'.
  split; [exact Hl|]. split; [exact Hr'|]. split.
  - rewrite step_driftSteeringAngle, Hl, lerp_blend.
    cbn [driftSteeringTargetOf]. at_Q. ring.
  - rewrite step_speed, lerp_blend.
    cbn [speedTargetOf forward back driftLeft]. at_Q. ring.
Qed.

Lemma driftLeftSteps_run (bs : list (RapierRigidBody Q)) (r : Refs Q) :
  1 < speed r * qpow 0.97 (pred (length bs)) ->
  driftingRight r = false ->
  let r' := run r (driftLeftSteps bs) in
  speed r' == speed r * qpow 0.97 (length bs) /\
  1 - driftSteeringAngle r' == (1 - driftSteeringAngle r) * qpow 0.5 (length bs) /\
  (bs <> [] -> driftingLeft r' = true) /\
  driftingRight r' = false.
Proof.
  revert r. induction bs as [|b bs IH]; intros r Hs Hdr.
  - change (run r (driftLeftSteps [])) with r. cbn [length qpow].
    split; [ring|]. split; [ring|]. split; [congruence | exact Hdr].
  - cbn [driftLeftSteps map]. rewrite run_cons. fold (driftLeftSteps bs).
    cbn [length pred] in Hs.
    assert (Hs1 : 1 < speed r).
    { destruct (Qlt_le_dec 1 (speed r)) as [Hlt|Hle]; [exact Hlt|exfalso].
      pose proof (@qpow_antitone 0.97 0 (length bs)) as Ha. cbn [qpow] in Ha.
      assert (Hp : qpow 0.97 (length bs) <= 1) by (apply Ha; [lra|lra|lia]).
      assert (Hq : 0 < qpow 0.97 (length bs)) by (apply qpow_pos; lra).
      assert (H : 0 <= (1 - speed r) * qpow 0.97 (length bs))
        by (apply Qmult_le_0_compat; lra).
      lra. }
    destruct (@driftLeft_step r b Hs1 Hdr) as (Hl & Hr' & Ha & Hv).
    set (r1 := step r (mkStepEnv driftLeft (Some b) onGround)) in *.
    destruct bs as [|b' bs'].
    + change (run r1 (driftLeftSteps [])) with r1. cbn [length qpow].
      split; [rewrite Hv; ring|]. split; [rewrite Ha; ring|].
      split; [intros _; exact Hl | exact Hr'].
    + destruct (IH r1) as (Hv' & Ha' & Hl' & Hr'').
      * rewrite Hv. cbn [length pred]. cbn [length qpow] in Hs.
        setoid_replace (speed r * 0.97 * qpow 0.97 (length bs'))
          with (speed r * (0.97 * qpow 0.97 (length bs'))) by ring.
        exact Hs.
      * exact Hr'.
      * split; [|split; [|split]].
        -- rewrite Hv', Hv. cbn [length qpow]. ring.
        -- rewrite Ha', Ha. cbn [length qpow]. ring.
        -- intros _. apply Hl'. discriminate.
        -- exact Hr''.
Qed.

(** C7.  From NotDrifting with [driftSteeringAngle] 0 and speed 2, hold
    drift and left on the ground for up to ten steps: after [n] steps the
    speed is [2 * 0.97^n], still above 1; [driftSteeringAngle] is
    [1 - 0.5^n]; from the first step on the state is DriftingLeft; and
    [driftSteeringAngle] is above 0.99 from step 7 on (not before). *)
Theorem drift_left_ten_steps (bs : list (RapierRigidBody Q)) :
  (length bs <= 10)%nat ->
  let n := length bs in
  let r := run (movingAt 2) (driftLeftSteps bs) in
  speed r == 2 * qpow 0.97 n /\
  1 < speed r /\
  driftSteeringAngle r == 1 - qpow 0.5 n /\
  ((1 <= n)%nat -> driftingLeft r = true /\ driftingRight r = false) /\
  ((7 <= n)%nat -> 0.99 < driftSteeringAngle r) /\
  ((n <= 6)%nat -> driftSteeringAngle r <= 0.99).
Proof.
  intros Hn n r. subst n r.
  assert (H10 : 1 < 2 * qpow 0.97 10) by (vm_compute; reflexivity).
  assert (Hge : forall k, (k <= 10)%nat -> 1 < 2 * qpow 0.97 k).
  { intros k Hk. pose proof (@qpow_antitone 0.97 k 10) as Ha.
    assert (qpow 0.97 10 <= qpow 0.97 k) by (apply Ha; [lra|lra|exact Hk]). lra. }
  destruct (@driftLeftSteps_run bs (movingAt 2)) as (Hv & Ha & Hl & Hr).
  { cbn [speed movingAt]. apply Hge. lia. }
  { reflexivity. }
  cbn [speed movingAt driftSteeringAngle] in Hv, Ha. lit_Q.
  split; [exact Hv|]. split; [rewrite Hv; apply Hge, Hn|].
  split; [lra|]. split; [|split].
  - intros H1. split; [|exact Hr]. apply Hl. destruct bs; [cbn in H1; lia|discriminate].
  - intros H7. pose proof (@qpow_antitone 0.5 7 (length bs)) as Hm.
    assert (qpow 0.5 (length bs) <= qpow 0.5 7) by (apply Hm; [lra|lra|exact H7]).
    assert (qpow 0.5 7 < 0.01) by (vm_compute; reflexivity). lra.
  - intros H6. pose proof (@qpow_antitone 0.5 (length bs) 6) as Hm.
    assert (qpow 0.5 6 <= qpow 0.5 (length bs)) by (apply Hm; [lra|lra|exact H6]).
    assert (0.01 < qpow 0.5 6) by (vm_compute; reflexivity). lra.
Qed.

(** C7 at seven steps, each with the body at rest at the origin. *)
Lemma drift_left_ten_steps_witness :
  let r := run (movingAt 2) (driftLeftSteps (repeat bodyAtRest 7)) in
  speed r == 2 * qpow 0.97 7 /\
  1 < speed r /\
  driftSteeringAngle r == 1 - qpow 0.5 7 /\
  ((1 <= 7)%nat -> driftingLeft r = true /\ driftingRight r = false) /\
  ((7 <= 7)%nat -> 0.99 < driftSteeringAngle r) /\
  ((7 <= 6)%nat -> driftSteeringAngle r <= 0.99).
Proof.
  apply (@drift_left_ten_steps (repeat bodyAtRest 7)).
  cbn. lia.
Defined.

(** ** Rotations about [up] *)

Section Components.
(** [Math.sin] and [Math.cos], as any two functions. *)
Variables sin cos : Q -> Q.

Lemma applyQuaternion_Identity v : sameVector (THREE.applyQuaternion sin cos v THREE.Identity) v.
Proof.
  unfold sameVector, THREE.applyQuaternion. cbn [THREE.components THREE.x THREE.y THREE.z]. at_Q.
  split; [ring | split; ring].
Qed.

Hypothesis sin_cos : forall a, sin a * sin a + cos a * cos a == 1.

(** In exact arithmetic, with [sin^2 + cos^2 = 1], a rotation about [up]
    keeps the length. *)
Lemma applyQuaternion_lengthSq v angle :
  THREE.lengthSq (THREE.applyQuaternion sin cos v (THREE.FromAxisAngle up angle))
  == THREE.lengthSq v.
Proof.
  unfold THREE.lengthSq, THREE.applyQuaternion, up.
  cbn [THREE.components THREE.x THREE.y THREE.z]. at_Q.
  pose proof (sin_cos (angle / 2)) as H.
  set (s := sin (angle / 2)) in *. set (c := cos (angle / 2)) in *.
  destruct v as [vx vy vz]. cbn [THREE.x THREE.y THREE.z].
  match goal with |- ?l == ?r =>
    setoid_replace l
      with (r + (vx * vx + vz * vz) * (4 * s * s) * (s * s + c * c - 1)) by ring
  end.
  rewrite H. ring.
Qed.

(** In exact arithmetic, with [sin^2 + cos^2 = 1], the test
    [length() > 0] on a vector rotated about [up] holds exactly when the
    vector before the rotation is not 0. *)
Lemma length_positive_rotated v angle :
  THREE.length_positive sin cos (THREE.ApplyQuaternion v (THREE.FromAxisAngle up angle))
  = true
  <-> 0 < THREE.lengthSq v.
Proof.
  unfold THREE.length_positive. cbn [THREE.valueOf]. lit_Q.
  rewrite ltb_Q, applyQuaternion_lengthSq. reflexivity.
Qed.

(** The drive impulse of a step, in components: the rotation of the raw
    impulse, of length [5 * |speed|] for the speed the step starts with; in
    exact arithmetic it passes the length test exactly when that speed is
    not 0. *)
Lemma driveImpulse_valueOf (r : Refs Q) (c : GameControls) b w d :
  driveImpulse (beforePhysicsStep r (mkStepEnv c (Some b) w)) = Some d ->
  THREE.valueOf sin cos d
  = THREE.applyQuaternion sin cos (rawImpulse r)
      (THREE.FromAxisAngle up (steeringAngle (step r (mkStepEnv c (Some b) w)))) /\
  THREE.lengthSq (THREE.valueOf sin cos d) == 25 * (speed r * speed r) /\
  THREE.length_positive sin cos d = negb (Qeq_bool (speed r) 0).
Proof.
  rewrite step_driveImpulse. intros [= <-]. cbn [THREE.valueOf].
  split; [reflexivity|]. split.
  - rewrite applyQuaternion_lengthSq. apply rawImpulse_lengthSq.
  - rewrite <- rawImpulse_positive.
    destruct (ltb 0 (THREE.lengthSq (rawImpulse r))) eqn:E.
    + apply length_positive_rotated, ltb_Q, E.
    + apply Bool.not_true_iff_false. intros H.
      apply length_positive_rotated, ltb_Q in H. congruence.
Qed.

(** It is one to one: under the same rotation, different vectors have
    different images. *)
Lemma applyQuaternion_injective v v' angle :
  sameVector (THREE.applyQuaternion sin cos v (THREE.FromAxisAngle up angle))
             (THREE.applyQuaternion sin cos v' (THREE.FromAxisAngle up angle)) ->
  sameVector v v'.
Proof.
  unfold sameVector, THREE.applyQuaternion, up.
  cbn [THREE.components THREE.x THREE.y THREE.z]. at_Q.
  pose proof (sin_cos (angle / 2)) as H.
  set (s := sin (angle / 2)) in *. set (c := cos (angle / 2)) in *.
  destruct v as [vx vy vz], v' as [wx wy wz]. cbn [THREE.x THREE.y THREE.z].
  intros (Hx & Hy & Hz).
  set (a := 1 - 2 * s * s). set (b := 2 * s * c).
  assert (Hab : a * a + b * b == 1).
  { unfold a, b.
    setoid_replace ((1 - 2 * s * s) * (1 - 2 * s * s) + 2 * s * c * (2 * s * c))
      with (1 + 4 * s * s * (s * s + c * c - 1)) by ring.
    rewrite H. ring. }
  assert (Ex : a * (vx - wx) + b * (vz - wz) == 0).
  { unfold a, b. lra. }
  assert (Ez : a * (vz - wz) - b * (vx - wx) == 0).
  { unfold a, b. lra. }
  assert (Dx : vx - wx == 0).
  { setoid_replace (vx - wx) with ((a * a + b * b) * (vx - wx)) by (rewrite Hab; ring).
    setoid_replace ((a * a + b * b) * (vx - wx))
      with (a * (a * (vx - wx) + b * (vz - wz)) - b * (a * (vz - wz) - b * (vx - wx)))
      by ring.
    rewrite Ex, Ez. ring. }
  assert (Dz : vz - wz == 0).
  { setoid_replace (vz - wz) with ((a * a + b * b) * (vz - wz)) by (rewrite Hab; ring).
    setoid_replace ((a * a + b * b) * (vz - wz))
      with (b * (a * (vx - wx) + b * (vz - wz)) + a * (a * (vz - wz) - b * (vx - wx)))
      by ring.
    rewrite Ex, Ez. ring. }
  split; [lra | split; lra].
Qed.

End Components.

(** C3, as the code has it.  A step that returns takes its raw impulse
    [(0, 0, -speed) * 5] from the speed it starts with (line 120), and only
    later blends the speed toward its target (line 201).  The drive impulse
    is that raw impulse rotated about [up] by the heading the step ends
    with; it is handed to [applyImpulse], before the damping impulse, when
    the rotated vector passes the length test.  In exact arithmetic the
    blend is [speed + (speedTarget - speed) * 0.03]. *)
Theorem drive_impulse_of_step :
  (forall (num : Type) (N : Num num) (r : Refs num) (c : GameControls) b w,
      let o := beforePhysicsStep r (mkStepEnv c (Some b) w) in
      let r' := refsOf o in
      let drive := THREE.ApplyQuaternion (rawImpulse r) (steeringAngleQuat r') in
      rawImpulse r
      = THREE.mkVector3 (mul (lit 0) (lit 5)) (mul (lit 0) (lit 5))
                        (mul (neg (speed r)) (lit 5)) /\
      speed r' = THREE.lerp (speed r) (speedTargetOf c) (lit 0.03) /\
      steeringAngleQuat r' = THREE.FromAxisAngle up (steeringAngle r') /\
      driveImpulse o = Some drive /\
      forall sin cos, exists damping,
        impulsesApplied sin cos o
        = (if THREE.length_positive sin cos drive then [(drive, true)] else [])
            ++ [damping]) /\
  (forall (r : Refs Q) (c : GameControls) b w,
      let r' := step r (mkStepEnv c (Some b) w) in
      (THREE.x (rawImpulse r) == 0 /\ THREE.y (rawImpulse r) == 0 /\
       THREE.z (rawImpulse r) == - speed r * 5) /\
      speed r' == speed r + (speedTargetOf c - speed r) * 0.03).
Proof.
  split.
  - intros num N r c b w o r' drive. subst o r' drive.
    fold (step r (mkStepEnv c (Some b) w)).
    split; [reflexivity|]. split; [apply step_speed|].
    split; [apply step_steeringAngleQuat|]. split.
    + rewrite step_driveImpulse, step_steeringAngleQuat. reflexivity.
    + intros sin cos. rewrite step_calls, step_steeringAngleQuat.
      eexists. cbn [impulsesApplied callsMade flat_map underLengthTest callImpulse
                    callWake andb negb app].
      destruct (THREE.length_positive sin cos _); reflexivity.
  - intros r c b w r'. subst r'. split.
    + apply rawImpulse_components.
    + rewrite step_speed. apply lerp_blend.
Qed.

(** C3 fails as stated.  After one step of forward from the state at mount
    the speed is 0.15; the next step of forward hands over the rotation of
    [(0, 0, -0.75)], from the speed 0.15 it starts with, whereas the speed it
    ends with is 0.2955, five times which is 1.4775.  The impulse is handed
    over: whatever [Math.sin] and [Math.cos] are, with [sin^2 + cos^2 = 1],
    the rotated vector passes the length test. *)
Lemma drive_impulse_lags_speed :
  let e := groundStep (num := Q) forwardOnly in
  let o := beforePhysicsStep (step initial e) e in
  speed (step initial e) == 0.15 /\
  exists v,
    driveImpulse o
    = Some (THREE.ApplyQuaternion v (THREE.FromAxisAngle up (steeringAngle (refsOf o)))) /\
    (forall sin cos : Q -> Q,
        (forall a, sin a * sin a + cos a * cos a == 1) ->
        exists damping,
          impulsesApplied sin cos o
          = [(THREE.ApplyQuaternion v (THREE.FromAxisAngle up (steeringAngle (refsOf o))),
              true); damping]) /\
    THREE.z v == - 0.75 /\
    - speed (refsOf o) * 5 == - 1.4775 /\
    ~ THREE.z v == - speed (refsOf o) * 5.
Proof.
  intros e o. split; [reflexivity|].
  eexists. split; [reflexivity|]. split.
  - intros sin cos Hsc. eexists.
    unfold o. fold (step (step initial e) e).
    unfold e, groundStep. rewrite step_calls.
    cbn [impulsesApplied callsMade flat_map underLengthTest callImpulse
         callWake andb negb app].
    match goal with
    | |- context [THREE.length_positive sin cos ?d] =>
        assert (H : THREE.length_positive sin cos d = true)
    end.
    { apply (length_positive_rotated sin cos Hsc). apply ltb_Q.
      rewrite rawImpulse_positive. reflexivity. }
    rewrite H. reflexivity.
  - split; [reflexivity|]. split; [reflexivity|]. discriminate.
Qed.


(** ** More on the speed *)

Lemma lerp_strictly_between (lo hi x y t : Q) :
  0 < t < 1 -> lo < x < hi -> lo <= y <= hi ->
  lo < THREE.lerp x y t < hi.
Proof.
  intros Ht Hx Hy. unfold THREE.lerp. at_Q.
  assert (H1 : 0 < (1 - t) * (x - lo)) by (apply Qmult_lt_0_compat; lra).
  assert (H2 : 0 < (1 - t) * (hi - x)) by (apply Qmult_lt_0_compat; lra).
  assert (H3 : 0 <= t * (y - lo)) by (apply Qmult_le_0_compat; lra).
  assert (H4 : 0 <= t * (hi - y)) by (apply Qmult_le_0_compat; lra).
  split; lra.
Qed.

(** X1.  Along every run from the state at mount the speed stays strictly
    inside the limits: it never equals [maxReverseSpeed] or
    [maxForwardSpeed]. *)
Theorem speed_never_reaches_limits (es : list (StepEnv Q)) :
  maxReverseSpeed < speed (run initial es) < maxForwardSpeed.
Proof.
  apply (run_invariant
           (fun r : Refs Q => maxReverseSpeed < speed r < maxForwardSpeed)).
  - intros r [c [b|] w] Hr.
    + rewrite step_speed. apply lerp_strictly_between.
      * at_Q. lra.
      * exact Hr.
      * destruct (speedTargetOf_cases c) as [H|[H|H]]; rewrite H; at_Q; lra.
    + rewrite step_null_body. exact Hr.
  - at_Q. cbn. lra.
Qed.

(** X2.  While the throttle keys do not change (so the speed target [T]
    is the same at every step) and every step returns, the distance of the
    speed to [T] shrinks by the factor 0.97 per step, from any speed. *)
Theorem constant_throttle (T : Q) (es : list (StepEnv Q)) (r : Refs Q) :
  Forall (fun e => bodyIsSet e = true /\ speedTargetOf (controls e) == T) es ->
  speed (run r es) - T == (speed r - T) * qpow 0.97 (length es).
Proof.
  intros H. revert r. induction H as [|e es [Hb HT] _ IH]; intros r.
  - cbn [length qpow]. rewrite run_nil. ring.
  - rewrite run_cons, IH. cbn [length qpow].
    destruct e as [c [b|] w]; [|discriminate Hb].
    rewrite step_speed, lerp_blend. cbn [controls] in HT. rewrite HT.
    at_Q. ring.
Qed.

(** X2 at three steps of back alone from rest: the target is -4. *)
Lemma constant_throttle_witness :
  speed (run initial (repeat (groundStep backOnly) 3)) - (-4)
  == (speed (initial (num := Q)) - (-4)) * qpow 0.97 (length (repeat (groundStep (num := Q) backOnly) 3)).
Proof.
  apply (@constant_throttle (-4) (repeat (groundStep backOnly) 3) initial).
  repeat constructor.
Defined.

(** X3.  A step with neither forward nor back held multiplies the speed by
    0.97: the speed keeps its sign and its magnitude does not grow. *)
Theorem coasting_decay (r : Refs Q) (c : GameControls) b w :
  forward c = false -> back c = false ->
  let r' := step r (mkStepEnv c (Some b) w) in
  speed r' == 0.97 * speed r /\
  Qabs (speed r') <= Qabs (speed r) /\
  (0 < speed r -> 0 < speed r') /\
  (speed r < 0 -> speed r' < 0).
Proof.
  intros Hf Hb r'. subst r'.
  assert (E : speed (step r (mkStepEnv c (Some b) w)) == 0.97 * speed r).
  { rewrite step_speed, lerp_blend. unfold speedTargetOf. rewrite Hf, Hb.
    at_Q. ring. }
  split; [exact E|]. rewrite E.
  split; [|split].
  - apply Qabs_case; intros H1; apply Qabs_case; intros H2; lra.
  - intros; lra.
  - intros; lra.
Qed.

Lemma coasting_decay_witness :
  let r' := step (movingAt 2) (groundStep leftOnly) in
  speed r' == 0.97 * 2 /\
  Qabs (speed r') <= Qabs 2 /\
  (0 < 2 -> 0 < speed r') /\
  (2 < 0 -> speed r' < 0).
Proof.
  apply (@coasting_decay (movingAt 2) leftOnly bodyAtRest onGround); reflexivity.
Defined.

(** ** More on the drift state machine *)

(** X4.  The flags a returning step ends with, in full: DriftingLeft
    exactly when drift is held, the ray hits, [1 < speed] at the start of
    the step, left is held, right is not, and [driftingRight] was not set;
    and symmetrically.  So no drift starts or lasts in the air, at speed 1
    or below (in reverse in particular), or with the drift key released,
    and the flag of a side does not depend on its own previous value. *)
Theorem drift_flags_formula (num : Type) (N : Num num)
        (r : Refs num) (c : GameControls) b w :
  let r' := step r (mkStepEnv c (Some b) w) in
  let enabled := drift c && grounded r' && ltb (lit 1) (speed r) in
  driftingLeft r' = enabled && left c && negb (right c) && negb (driftingRight r) /\
  driftingRight r' = enabled && right c && negb (left c) && negb (driftingLeft r).
Proof.
  intros r' enabled. subst r' enabled.
  pose proof (step_flags r c b w) as Hf. rewrite step_grounded.
  unfold driftFlags in Hf.
  destruct (drift c), (left c), (right c), (driftingLeft r), (driftingRight r),
    (match w _ _ _ with Some _ => true | None => false end),
    (ltb (lit 1) (speed r));
    cbn in Hf |- *; injection Hf as -> ->; split; reflexivity.
Qed.

(** X5.  While the drift key stays released and every step returns,
    [driftSteeringAngle] halves at each step, from any value. *)
Theorem drift_angle_after_release (es : list (StepEnv Q)) (r : Refs Q) :
  Forall (fun e => bodyIsSet e = true /\ drift (controls e) = false) es ->
  driftSteeringAngle (run r es) == driftSteeringAngle r * qpow 0.5 (length es).
Proof.
  intros H. revert r. induction H as [|e es [Hb Hd] _ IH]; intros r.
  - cbn [length qpow]. rewrite run_nil. ring.
  - rewrite run_cons, IH. cbn [length qpow].
    destruct e as [c [b|] w]; [|discriminate Hb]. cbn [controls] in Hd.
    rewrite step_driftSteeringAngle, lerp_blend.
    pose proof (step_flags r c b w) as Hf. unfold driftFlags in Hf.
    rewrite Hd in Hf. cbn in Hf. injection Hf as -> ->.
    cbn [driftSteeringTargetOf]. at_Q. ring.
Qed.

Lemma drift_angle_after_release_witness :
  let r := run (movingAt 2) (repeat (groundStep driftLeft) 3) in
  driftSteeringAngle (run r (repeat (groundStep noKeys) 2))
  == driftSteeringAngle r * qpow 0.5 (length (repeat (groundStep (num := Q) noKeys) 2)).
Proof.
  apply (@drift_angle_after_release (repeat (groundStep noKeys) 2)).
  repeat constructor.
Defined.

(** ** More on steering *)

(** X6.  Along every run from the state at mount (in either arithmetic)
    the stored quaternion is the rotation about [up] by the current
    heading: it is rebuilt from [steeringAngle] by every step that returns,
    and until the first such step it is the identity, with heading 0. *)
Theorem quaternion_follows_heading (num : Type) (N : Num num)
        (es : list (StepEnv num)) :
  let r := run initial es in
  (steeringAngleQuat r = THREE.Identity /\ steeringAngle r = lit 0) \/
  steeringAngleQuat r = THREE.FromAxisAngle up (steeringAngle r).
Proof.
  cbv zeta.
  apply (run_invariant
           (fun r : Refs num =>
              (steeringAngleQuat r = THREE.Identity /\ steeringAngle r = lit 0) \/
              steeringAngleQuat r = THREE.FromAxisAngle up (steeringAngle r))).
  - intros r [c [b|] w] Hr.
    + right. apply step_steeringAngleQuat.
    + rewrite step_null_body. exact Hr.
  - left. split; reflexivity.
Qed.

Lemma steeringInputOf_values (c : GameControls) (v : THREE.Vector3 Q) :
  steeringInputOf c v == -1 \/ steeringInputOf c v == 0 \/ steeringInputOf c v == 1.
Proof.
  unfold steeringInputOf, Number.
  destruct (ltb _ _), (left c), (right c); at_Q;
    first [left; reflexivity | right; left; reflexivity | right; right; reflexivity].
Qed.

(** X7.  Along every run from the state at mount the steering input is
    -1, 0 or 1, and it is 0 after any step in which left and right are both
    held or both released. *)
Theorem steering_input_values :
  (forall es : list (StepEnv Q),
      let s := steeringInput (run initial es) in
      s == -1 \/ s == 0 \/ s == 1) /\
  (forall (r : Refs Q) c b w,
      left c = right c -> steeringInput (step r (mkStepEnv c (Some b) w)) == 0).
Proof.
  split.
  - intros es. cbv zeta.
    apply (run_invariant
             (fun r : Refs Q =>
                steeringInput r == -1 \/ steeringInput r == 0 \/ steeringInput r == 1)).
    + intros r [c [b|] w] Hr.
      * rewrite step_steeringInput. apply steeringInputOf_values.
      * rewrite step_null_body. exact Hr.
    + right; left. reflexivity.
  - intros r c b w Hlr. rewrite step_steeringInput.
    unfold steeringInputOf, Number. rewrite Hlr.
    destruct (ltb _ _), (right c); at_Q; ring.
Qed.

Lemma run_heading_bound (es : list (StepEnv Q)) (r : Refs Q) :
  -1 <= driftSteeringAngle r <= 1 ->
  Qabs (steeringAngle (run r es) - steeringAngle r)
  <= 0.03 * inject_Z (Z.of_nat (length es)).
Proof.
  revert r. induction es as [|e es IH]; intros r Hr.
  - rewrite run_nil. cbn [length Z.of_nat].
    setoid_replace (steeringAngle r - steeringAngle r) with 0 by ring.
    apply Qle_bool_iff. reflexivity.
  - rewrite run_cons. cbn [length]. rewrite Nat2Z.inj_succ. unfold Z.succ.
    rewrite inject_Z_plus. change (inject_Z 1) with 1.
    pose proof (@step_heading_change r e Hr) as H1.
    pose proof (IH (step r e) (@step_driftSteeringAngle_bounds r e Hr)) as H2.
    apply Qabs_Qle_condition in H1. apply Qabs_Qle_condition in H2.
    apply Qabs_Qle_condition. lra.
Qed.

(** X8.  After [n] steps from the state at mount the heading is within
    [0.03 * n] of 0: the vehicle cannot turn faster than 0.03 per step,
    whatever is held. *)
Theorem heading_after_steps (es : list (StepEnv Q)) :
  Qabs (steeringAngle (run initial es)) <= 0.03 * inject_Z (Z.of_nat (length es)).
Proof.
  pose proof (@run_heading_bound es initial) as H.
  assert (H0 : -1 <= driftSteeringAngle (initial (num := Q)) <= 1) by (cbn; lra).
  specialize (H H0). cbn [steeringAngle initial] in H. lit_Q.
  apply Qabs_Qle_condition in H. apply Qabs_Qle_condition. lra.
Qed.

(** ** The impulses of a step *)

(** X9.  A step that returns calls [applyImpulse] once or twice, whatever
    the length test answers, always waking the body, and the damping impulse
    is the last call: it has no vertical component and never points along
    the horizontal velocity (its product with the velocity is
    [-1.5 * (vx^2 + vz^2)], negative unless the body has no horizontal
    velocity). *)
Theorem damping_opposes_velocity (r : Refs Q) (c : GameControls) b w
        (lengthPositive : THREE.Vec Q -> bool) :
  exists calls d,
    beforePhysicsStep r (mkStepEnv c (Some b) w)
    = Returned (step r (mkStepEnv c (Some b) w)) calls /\
    let made := callsMade lengthPositive calls in
    (length made = 1 \/ length made = 2)%nat /\
    Forall (fun call => snd call = true) made /\
    last made (THREE.Plain d, false) = (THREE.Plain d, true) /\
    THREE.y d == 0 /\
    THREE.x d * THREE.x (linvel b) + THREE.y d * THREE.y (linvel b)
      + THREE.z d * THREE.z (linvel b)
    == -1.5 * (THREE.x (linvel b) * THREE.x (linvel b)
               + THREE.z (linvel b) * THREE.z (linvel b)) /\
    THREE.x d * THREE.x (linvel b) + THREE.y d * THREE.y (linvel b)
      + THREE.z d * THREE.z (linvel b) <= 0.
Proof.
  eexists.
  exists (THREE.mkVector3 (- THREE.x (linvel b) * 1.5) 0 (- THREE.z (linvel b) * 1.5)).
  split; [apply step_calls|].
  cbn [callsMade flat_map underLengthTest callImpulse callWake andb negb].
  destruct (lengthPositive _); cbn [negb app length last].
  - split; [right; reflexivity|]. split; [repeat constructor|].
    split; [reflexivity|]. cbn [THREE.x THREE.y THREE.z].
    split; [reflexivity|]. split; [ring|].
    assert (0 <= THREE.x (linvel b) * THREE.x (linvel b)) by nra.
    assert (0 <= THREE.z (linvel b) * THREE.z (linvel b)) by nra.
    lra.
  - split; [left; reflexivity|]. split; [repeat constructor|].
    split; [reflexivity|]. cbn [THREE.x THREE.y THREE.z].
    split; [reflexivity|]. split; [ring|].
    assert (0 <= THREE.x (linvel b) * THREE.x (linvel b)) by nra.
    assert (0 <= THREE.z (linvel b) * THREE.z (linvel b)) by nra.
    lra.
Qed.

(** ** Physics steps and rendered frames *)

Section Ownership.
Context {num : Type} {N : Num num}.

Lemma sameSimulation_refl (r : Refs num) : sameSimulation r r.
Proof. repeat split. Qed.

(** A step reads the render cells nowhere. *)
Lemma step_sameSimulation (r1 r2 : Refs num) (e : StepEnv num) :
  sameSimulation r1 r2 -> sameSimulation (step r1 e) (step r2 e).
Proof.
  destruct r1, r2. unfold sameSimulation. cbn [steeringInput steeringAngle
    steeringAngleQuat driftSteeringAngle driftingLeft driftingRight speed grounded].
  intros (-> & -> & -> & -> & -> & -> & -> & ->).
  destruct e as [c [b|] w]; unfold step, beforePhysicsStep, rawImpulse;
    cbn [bodyRef controls castRay speed steeringAngle driftSteeringAngle
         driftingLeft driftingRight refsOf].
  - destruct (driftFlags _ _ _ _ _). cbn. repeat split.
  - cbn. repeat split.
Qed.

Lemma step_sameVisual (r : Refs num) (e : StepEnv num) : sameVisual (step r e) r.
Proof.
  destruct e as [c [b|] w]; unfold step, beforePhysicsStep;
    cbn [bodyRef controls castRay refsOf].
  - destruct (driftFlags _ _ _ _ _). split; reflexivity.
  - split; reflexivity.
Qed.

Lemma useFrame_sameSimulation (r : Refs num) s body delta :
  sameSimulation (fst (useFrame r s body delta)) r.
Proof. destruct body; cbn; repeat split. Qed.

Lemma schedule_cons (st : Refs num * Scene num) ev evs :
  schedule st (ev :: evs) = schedule (dispatch st ev) evs.
Proof. reflexivity. Qed.

Lemma schedule_sameSimulation (evs : list (Event num)) :
  forall (st : Refs num * Scene num) (r : Refs num),
    sameSimulation (fst st) r ->
    sameSimulation (fst (schedule st evs)) (run r (physicsSteps evs)).
Proof.
  induction evs as [|[e|body delta] evs IH]; intros [r0 s] r H.
  - exact H.
  - rewrite schedule_cons. cbn [physicsSteps]. rewrite run_cons.
    apply IH. cbn [dispatch fst snd]. apply step_sameSimulation, H.
  - rewrite schedule_cons. cbn [physicsSteps]. apply IH.
    cbn [dispatch fst snd] in *.
    pose proof (useFrame_sameSimulation r0 s body delta) as Hu.
    unfold sameSimulation in *.
    destruct Hu as (a1 & a2 & a3 & a4 & a5 & a6 & a7 & a8).
    destruct H as (b1 & b2 & b3 & b4 & b5 & b6 & b7 & b8).
    repeat split; congruence.
Qed.

End Ownership.

(** X10.  However physics steps and rendered frames interleave (and in
    either arithmetic), the cells of the simulation end as if no frame had
    been rendered: the render callback never writes them, and the physics
    callback never reads what the render callback writes.  Conversely a
    sequence of physics steps alone leaves [wheelRotation],
    [driftSteeringVisualAngle] and the scene as they were. *)
Theorem simulation_ignores_frames (num : Type) (N : Num num)
        (r : Refs num) (s : Scene num) :
  (forall evs : list (Event num),
      sameSimulation (fst (schedule (r, s) evs)) (run r (physicsSteps evs))) /\
  (forall es : list (StepEnv num),
      sameVisual (fst (schedule (r, s) (map (@PhysicsStep num) es))) r /\
      snd (schedule (r, s) (map (@PhysicsStep num) es)) = s).
Proof.
  split.
  - intros evs. apply schedule_sameSimulation. apply sameSimulation_refl.
  - intros es. revert r. induction es as [|e es IH]; intros r.
    + split; [split|]; reflexivity.
    + cbn [map]. rewrite schedule_cons. cbn [dispatch fst snd].
      destruct (IH (step r e)) as ((H1 & H2) & H3).
      destruct (step_sameVisual r e) as (H4 & H5).
      split; [split|]; congruence.
Qed.

(** ** The wheels and the tilt *)





Lemma dispatch_driftSteeringAngle_bounds (st : Refs Q * Scene Q) (ev : Event Q) :
  -1 <= driftSteeringAngle (fst st) <= 1 ->
  -1 <= driftSteeringAngle (fst (dispatch st ev)) <= 1.
Proof.
  destruct st as [r s]. destruct ev as [e|body delta]; cbn [dispatch fst snd]; intros H.
  - apply step_driftSteeringAngle_bounds, H.
  - destruct (useFrame_sameSimulation r s body delta) as (_ & _ & _ & -> & _). exact H.
Qed.

Lemma dispatch_visual_bounds (st : Refs Q * Scene Q) (ev : Event Q) :
  shortFrame ev ->
  -1 <= driftSteeringAngle (fst st) <= 1 ->
  -1 <= driftSteeringVisualAngle (fst st) <= 1 ->
  -1 <= driftSteeringVisualAngle (fst (dispatch st ev)) <= 1.
Proof.
  destruct st as [r s]. destruct ev as [e|[b|] delta]; cbn [dispatch fst snd shortFrame];
    intros Hd Ha Hv.
  - destruct (step_sameVisual r e) as (_ & ->). exact Hv.
  - cbn [useFrame fst driftSteeringVisualAngle]. apply lerp_between.
    + at_Q. lra.
    + exact Hv.
    + exact Ha.
  - exact Hv.
Qed.

(** X13.  From the state at mount, whatever the physics steps in between,
    the visual tilt stays in [-1, 1] as long as no rendered frame takes more
    than 0.1 s. *)
Theorem drift_visual_angle_bounded (s : Scene Q) (evs : list (Event Q)) :
  Forall shortFrame evs ->
  -1 <= driftSteeringVisualAngle (fst (schedule (initial, s) evs)) <= 1.
Proof.
  intros H.
  assert (G : forall st : Refs Q * Scene Q,
             -1 <= driftSteeringAngle (fst st) <= 1 ->
             -1 <= driftSteeringVisualAngle (fst st) <= 1 ->
             -1 <= driftSteeringVisualAngle (fst (schedule st evs)) <= 1).
  { induction H as [|ev evs Hev _ IH]; intros st Ha Hv.
    - exact Hv.
    - rewrite schedule_cons. apply IH.
      + apply dispatch_driftSteeringAngle_bounds, Ha.
      + apply dispatch_visual_bounds; assumption. }
  apply G; cbn; lra.
Qed.

(** X13 at work: a step of forward, then a frame of 16 ms. *)
Lemma drift_visual_angle_bounded_witness :
  -1 <= driftSteeringVisualAngle
          (fst (schedule (initial, sceneAtOrigin)
                         [PhysicsStep (groundStep forwardOnly);
                          RenderFrame (Some bodyAtRest) 0.016])) <= 1.
Proof.
  apply (@drift_visual_angle_bounded sceneAtOrigin
           [PhysicsStep (groundStep forwardOnly); RenderFrame (Some bodyAtRest) 0.016]).
  repeat constructor; cbn; lra.
Defined.

(** ** The wheels *)

Section Wheels.
Context {num : Type} {N : Num num}.

Lemma nth_error_setIndex {A : Type} (a : list A) (i j : nat) (v : A) :
  nth_error (CarBody.setIndex a i v) j =
  if Nat.eqb i j then option_map (fun _ => v) (nth_error a j) else nth_error a j.
Proof.
  revert i j. induction a as [|x a IH]; intros [|i] [|j]; cbn; try reflexivity.
  - destruct (Nat.eqb i j); reflexivity.
  - apply IH.
Qed.

Lemma length_setIndex {A : Type} (a : list A) (i : nat) (v : A) :
  length (CarBody.setIndex a i v) = length a.
Proof.
  revert i. induction a as [|x a IH]; intros [|i]; cbn; try reflexivity.
  f_equal. apply IH.
Qed.

Lemma setYaw_Some (wheels : list (option (CarBody.Object3D num))) i yaw :
  CarBody.mounted wheels i = true ->
  exists w,
    nth_error wheels i = Some (Some w) /\
    CarBody.setYaw wheels i yaw =
    Some (CarBody.setIndex wheels i
            (Some (CarBody.mkObject3D (CarBody.rotation_order w) (CarBody.rotation_x w)
                                      yaw (CarBody.rotation_z w)))).
Proof.
  unfold CarBody.mounted, CarBody.setYaw.
  destruct (nth_error wheels i) as [[w|]|]; try discriminate.
  intros _. exists w. split; reflexivity.
Qed.

Lemma setYaw_None (wheels : list (option (CarBody.Object3D num))) i yaw :
  CarBody.mounted wheels i = false -> CarBody.setYaw wheels i yaw = None.
Proof.
  unfold CarBody.mounted, CarBody.setYaw.
  destruct (nth_error wheels i) as [[w|]|]; try discriminate; reflexivity.
Qed.

Lemma mounted_spin (v : CarBody.VehicleVectors num) wheels i :
  CarBody.mounted (map (CarBody.spin v) wheels) i = CarBody.mounted wheels i.
Proof.
  unfold CarBody.mounted. rewrite nth_error_map.
  destruct (nth_error wheels i) as [[w|]|]; reflexivity.
Qed.

Lemma mounted_setIndex (wheels : list (option (CarBody.Object3D num))) i j w :
  CarBody.mounted wheels i = true ->
  CarBody.mounted (CarBody.setIndex wheels i (Some w)) j = CarBody.mounted wheels j.
Proof.
  unfold CarBody.mounted. rewrite nth_error_setIndex.
  destruct (Nat.eqb_spec i j) as [->|Hne]; [|reflexivity].
  destruct (nth_error wheels j) as [[w'|]|]; try discriminate; reflexivity.
Qed.

End Wheels.

(** X14.  The wheel callback returns exactly when both front wheels
    (indices 0 and 1) are mounted.  The guard of its loop skips a missing
    wheel, but the two assignments after the loop do not: with a front wheel
    missing the callback throws, after the loop has already written the
    pitch of every mounted wheel. *)
Theorem wheels_frame_returns_iff (num : Type) (N : Num num)
        (v : CarBody.VehicleVectors num)
        (wheels : list (option (CarBody.Object3D num))) :
  (CarBody.mounted wheels 0 && CarBody.mounted wheels 1 = true ->
   exists wheels', CarBody.useFrame v wheels = CarBody.FrameReturned wheels') /\
  (CarBody.mounted wheels 1 = false ->
   CarBody.useFrame v wheels = CarBody.FrameTypeError (map (CarBody.spin v) wheels)) /\
  (CarBody.mounted wheels 1 = true -> CarBody.mounted wheels 0 = false ->
   exists wheels',
     CarBody.useFrame v wheels = CarBody.FrameTypeError wheels' /\
     forall i, i <> 1%nat -> nth_error wheels' i = nth_error (map (CarBody.spin v) wheels) i).
Proof.
  unfold CarBody.useFrame. split; [|split].
  - intros H. apply andb_true_iff in H. destruct H as [H0 H1].
    rewrite <- (mounted_spin v) in H0, H1.
    destruct (setYaw_Some _ _ (mul (CarBody.steeringInput v) (lit 0.5)) H1)
      as (w1 & Hn1 & ->).
    rewrite <- (mounted_setIndex _ 1 0
                  (CarBody.mkObject3D (CarBody.rotation_order w1) (CarBody.rotation_x w1)
                     (mul (CarBody.steeringInput v) (lit 0.5)) (CarBody.rotation_z w1)) H1)
      in H0.
    destruct (setYaw_Some _ _ (mul (CarBody.steeringInput v) (lit 0.5)) H0)
      as (w0 & Hn0 & ->).
    eexists. reflexivity.
  - intros H1. rewrite <- (mounted_spin v) in H1.
    rewrite (setYaw_None _ _ _ H1). reflexivity.
  - intros H1 H0. rewrite <- (mounted_spin v) in H0, H1.
    destruct (setYaw_Some _ _ (mul (CarBody.steeringInput v) (lit 0.5)) H1)
      as (w1 & Hn1 & ->).
    rewrite <- (mounted_setIndex _ 1 0
                  (CarBody.mkObject3D (CarBody.rotation_order w1) (CarBody.rotation_x w1)
                     (mul (CarBody.steeringInput v) (lit 0.5)) (CarBody.rotation_z w1)) H1)
      in H0.
    rewrite (setYaw_None _ _ _ H0).
    eexists. split; [reflexivity|].
    intros i Hi. rewrite nth_error_setIndex.
    destruct (Nat.eqb_spec 1 i) as [<-|_]; [contradiction|reflexivity].
Qed.

Lemma useFrame_returned (num : Type) (N : Num num)
        (v : CarBody.VehicleVectors num)
        (wheels wheels' : list (option (CarBody.Object3D num))) :
  CarBody.useFrame v wheels = CarBody.FrameReturned wheels' ->
  (CarBody.mounted wheels 0 = true /\ CarBody.mounted wheels 1 = true) /\
  length wheels' = length wheels /\
  forall i,
    nth_error wheels' i =
    option_map
      (option_map
         (fun w => CarBody.mkObject3D CarBody.YXZ (CarBody.wheelRotation v)
                     (if Nat.ltb i 2 then mul (CarBody.steeringInput v) (lit 0.5)
                      else CarBody.rotation_y w)
                     (CarBody.rotation_z w)))
      (nth_error wheels i).
Proof.
  unfold CarBody.useFrame, CarBody.setYaw, CarBody.mounted.
  rewrite nth_error_map.
  destruct (nth_error wheels 1) as [[w1|]|] eqn:E1; cbn [option_map CarBody.spin];
    try discriminate.
  rewrite nth_error_setIndex. cbn [Nat.eqb]. rewrite nth_error_map.
  destruct (nth_error wheels 0) as [[w0|]|] eqn:E0; cbn [option_map CarBody.spin];
    try discriminate.
  intros [= <-]. split; [split; reflexivity|]. split.
  - rewrite !length_setIndex. apply length_map.
  - intros i. rewrite !nth_error_setIndex, nth_error_map.
    destruct i as [|[|i]]; cbn [Nat.eqb Nat.ltb Nat.leb].
    + rewrite E0. reflexivity.
    + rewrite E1. reflexivity.
    + destruct (nth_error wheels (S (S i))) as [[w|]|]; reflexivity.
Qed.

(** X15.  When the wheel callback returns, the array keeps its length and
    its missing entries; every mounted wheel has order YXZ, pitch
    [wheelRotation] and its roll unchanged; the two front wheels have yaw
    [steeringInput * 0.5] and the other wheels keep their yaw. *)
Theorem wheels_frame_result (num : Type) (N : Num num)
        (v : CarBody.VehicleVectors num)
        (wheels wheels' : list (option (CarBody.Object3D num))) :
  CarBody.useFrame v wheels = CarBody.FrameReturned wheels' ->
  length wheels' = length wheels /\
  forall i,
    nth_error wheels' i =
    option_map
      (option_map
         (fun w => CarBody.mkObject3D CarBody.YXZ (CarBody.wheelRotation v)
                     (if Nat.ltb i 2 then mul (CarBody.steeringInput v) (lit 0.5)
                      else CarBody.rotation_y w)
                     (CarBody.rotation_z w)))
      (nth_error wheels i).
Proof.
  intros H. destruct (@useFrame_returned _ _ _ _ _ H) as (_ & Hl & Hn).
  split; assumption.
Qed.

(** Four mounted wheels, as [CarBody] renders them. *)
Lemma wheels_frame_result_witness :
  let w := CarBody.mkObject3D CarBody.XYZ 0 0 0 in
  let v := vectorsOf (step (movingAt 2) (groundStep leftOnly)) in
  let wheels' :=
    [Some (CarBody.mkObject3D CarBody.YXZ (CarBody.wheelRotation v)
                              (CarBody.steeringInput v * 0.5) 0);
     Some (CarBody.mkObject3D CarBody.YXZ (CarBody.wheelRotation v)
                              (CarBody.steeringInput v * 0.5) 0);
     Some (CarBody.mkObject3D CarBody.YXZ (CarBody.wheelRotation v) 0 0);
     Some (CarBody.mkObject3D CarBody.YXZ (CarBody.wheelRotation v) 0 0)] in
  length wheels' = 4%nat /\
  forall i,
    nth_error wheels' i =
    option_map
      (option_map
         (fun w => CarBody.mkObject3D CarBody.YXZ (CarBody.wheelRotation v)
                     (if Nat.ltb i 2 then mul (CarBody.steeringInput v) (lit 0.5)
                      else CarBody.rotation_y w)
                     (CarBody.rotation_z w)))
      (nth_error [Some w; Some w; Some w; Some w] i).
Proof.
  intros w v wheels'.
  apply (@wheels_frame_result Q Num_Q v [Some w; Some w; Some w; Some w] wheels').
  reflexivity.
Defined.

Lemma run_steeringInput_values (es : list (StepEnv Q)) :
  steeringInput (run initial es) == -1 \/ steeringInput (run initial es) == 0 \/
  steeringInput (run initial es) == 1.
Proof.
  apply (run_invariant
           (fun r : Refs Q =>
              steeringInput r == -1 \/ steeringInput r == 0 \/ steeringInput r == 1)).
  - intros r [c [b|] w] Hr.
    + rewrite step_steeringInput. apply steeringInputOf_values.
    + rewrite step_null_body. exact Hr.
  - right; left. reflexivity.
Qed.

(** X16.  After any physics steps from the state at mount, a wheel frame
    of the player's car that returns leaves both front wheels with a yaw of
    -0.5, 0 or 0.5.  The wheels of another player's car are given cells that
    nothing writes: they get pitch 0, and the front wheels yaw 0, at every
    frame. *)
Theorem front_wheel_yaw (es : list (StepEnv Q))
        (wheels wheels' : list (option (CarBody.Object3D Q))) :
  (CarBody.useFrame (vectorsOf (run initial es)) wheels = CarBody.FrameReturned wheels' ->
   forall i, (i < 2)%nat ->
     exists w, nth_error wheels' i = Some (Some w) /\
               (CarBody.rotation_y w == -0.5 \/ CarBody.rotation_y w == 0 \/
                CarBody.rotation_y w == 0.5)) /\
  (CarBody.useFrame OtherPlayers.vectors wheels = CarBody.FrameReturned wheels' ->
   forall i w, nth_error wheels' i = Some (Some w) ->
     CarBody.rotation_x w == 0 /\ ((i < 2)%nat -> CarBody.rotation_y w == 0)).
Proof.
  split.
  - intros H i Hi.
    destruct (@useFrame_returned _ _ _ _ _ H) as ((H0 & H1) & _ & Hn).
    specialize (Hn i). apply Nat.ltb_lt in Hi. rewrite Hi in Hn.
    assert (Hm : CarBody.mounted wheels i = true).
    { apply Nat.ltb_lt in Hi. destruct i as [|[|i]]; [exact H0|exact H1|lia]. }
    unfold CarBody.mounted in Hm.
    destruct (nth_error wheels i) as [[w|]|]; try discriminate.
    cbn [option_map] in Hn. eexists. split; [exact Hn|].
    cbn [CarBody.rotation_y vectorsOf CarBody.steeringInput].
    destruct (run_steeringInput_values es) as [E|[E|E]]; at_Q; rewrite E;
      [left|right; left|right; right]; reflexivity.
  - intros H i w Hw.
    destruct (@useFrame_returned _ _ _ _ _ H) as (_ & _ & Hn).
    rewrite Hn in Hw.
    destruct (nth_error wheels i) as [[w0|]|]; try discriminate.
    cbn [option_map] in Hw. injection Hw as <-.
    cbn [CarBody.rotation_x CarBody.rotation_y OtherPlayers.vectors
         CarBody.wheelRotation CarBody.steeringInput].
    split; [reflexivity|].
    intros Hi. apply Nat.ltb_lt in Hi. rewrite Hi. reflexivity.
Qed.

(** ** The other players *)

Section Presence.
Context {num : Type}.
Implicit Types (o : OtherPlayers.Users num) (k : String.string).

Lemma get_delete_same o k : OtherPlayers.get (OtherPlayers.delete o k) k = None.
Proof.
  induction o as [|[k' p] o IH]; [reflexivity|].
  unfold OtherPlayers.delete in *. cbn [filter fst].
  destruct (String.eqb k' k) eqn:E; cbn [negb]; [exact IH|].
  cbn [OtherPlayers.get]. rewrite E. exact IH.
Qed.

Lemma get_delete_other o k k' :
  k' <> k -> OtherPlayers.get (OtherPlayers.delete o k) k' = OtherPlayers.get o k'.
Proof.
  intros Hne. induction o as [|[k0 p] o IH]; [reflexivity|].
  unfold OtherPlayers.delete in *. cbn [filter fst OtherPlayers.get].
  destruct (String.eqb k0 k) eqn:E; cbn [negb].
  - apply String.eqb_eq in E. subst k0.
    destruct (String.eqb k k') eqn:E'.
    + apply String.eqb_eq in E'. congruence.
    + exact IH.
  - cbn [OtherPlayers.get]. destruct (String.eqb k0 k'); [reflexivity|exact IH].
Qed.

Lemma keys_delete o k :
  OtherPlayers.keys (OtherPlayers.delete o k)
  = filter (fun k' => negb (String.eqb k' k)) (OtherPlayers.keys o).
Proof.
  unfold OtherPlayers.keys, OtherPlayers.delete.
  induction o as [|[k' p] o IH]; [reflexivity|].
  cbn [filter map fst]. destruct (String.eqb k' k); cbn [negb map fst];
    rewrite IH; reflexivity.
Qed.

Lemma In_keys_get o k :
  In k (OtherPlayers.keys o) <-> OtherPlayers.get o k <> None.
Proof.
  unfold OtherPlayers.keys. induction o as [|[k' p] o IH]; cbn [map fst In OtherPlayers.get].
  - split; [contradiction|congruence].
  - destruct (String.eqb k' k) eqn:E.
    + apply String.eqb_eq in E. split; [discriminate|auto].
    + apply String.eqb_neq in E. rewrite <- IH. tauto.
Qed.

Lemma not_In_keys_delete o k : ~ In k (OtherPlayers.keys (OtherPlayers.delete o k)).
Proof.
  rewrite keys_delete, filter_In. intros [_ H].
  rewrite String.eqb_refl in H. discriminate.
Qed.

Lemma NoDup_keys_delete o k :
  NoDup (OtherPlayers.keys o) -> NoDup (OtherPlayers.keys (OtherPlayers.delete o k)).
Proof. intros H. rewrite keys_delete. apply NoDup_filter, H. Qed.

(** Reading an object through the address it was just written at. *)
Lemma load_store_alloc (h : list (OtherPlayers.Users num)) o o' :
  OtherPlayers.load (OtherPlayers.store (h ++ [o]) (length h) o') (length h) = o'.
Proof.
  unfold OtherPlayers.load, OtherPlayers.store.
  induction h as [|x h IH]; [reflexivity|]. cbn. exact IH.
Qed.

Lemma load_alloc (h : list (OtherPlayers.Users num)) o :
  OtherPlayers.load (h ++ [o]) (length h) = o.
Proof.
  unfold OtherPlayers.load. induction h as [|x h IH]; [reflexivity|]. cbn. exact IH.
Qed.

Lemma fold_changed (p : String.string -> bool) (l : list String.string) (init : bool) :
  fold_left (fun changed connId => if p connId then true else changed) l init
  = init || existsb p l.
Proof.
  revert init. induction l as [|k l IH]; intros init; cbn [fold_left existsb].
  - rewrite orb_false_r. reflexivity.
  - rewrite IH. destruct (p k), init; reflexivity.
Qed.

Lemma includes_In (a : list String.string) k :
  OtherPlayers.includes a k = true <-> In k a.
Proof.
  unfold OtherPlayers.includes. rewrite existsb_exists. split.
  - intros (x & Hx & E). apply String.eqb_eq in E. subst. exact Hx.
  - intros H. exists k. split; [exact H|apply String.eqb_refl].
Qed.

(** [changed] stays false exactly when the two arrays have the same length
    and every new id is a current one. *)
Lemma changedIds_false (connIds current : list String.string) :
  OtherPlayers.changedIds connIds current = false <->
  length connIds = length current /\ incl connIds current.
Proof.
  unfold OtherPlayers.changedIds. rewrite fold_changed.
  destruct (Nat.eqb_spec (length connIds) (length current)) as [El|Nl]; cbn [negb orb].
  - split.
    + intros H. split; [exact El|]. intros k Hk.
      apply includes_In. destruct (OtherPlayers.includes current k) eqn:E; [reflexivity|].
      exfalso. apply Bool.not_true_iff_false in H. apply H.
      apply existsb_exists. exists k. rewrite E. auto.
    + intros [_ Hi]. apply Bool.not_true_iff_false. intros H.
      apply existsb_exists in H. destruct H as (k & Hk & E).
      apply Hi, includes_In in Hk. rewrite Hk in E. discriminate.
  - split; [discriminate|]. intros [El _]. contradiction.
Qed.

Lemma changedIds_Permutation (connIds current : list String.string) :
  NoDup connIds ->
  (OtherPlayers.changedIds connIds current = false <-> Permutation connIds current).
Proof.
  intros Hn. rewrite changedIds_false. split.
  - intros [El Hi]. apply NoDup_Permutation_bis; [exact Hn|lia|exact Hi].
  - intros Hp. split; [apply Permutation_length, Hp|].
    intros k Hk. eapply Permutation_in; eassumption.
Qed.

(** The state after a presence update. *)
Lemma messageHandler_update (selfId : String.string) (st : OtherPlayers.State num)
      (u : OtherPlayers.Users num) :
  let st' := OtherPlayers.messageHandler selfId st
               (OtherPlayers.mkMessageJson "update-presence"%string u) in
  OtherPlayers.presence st' = OtherPlayers.delete u selfId /\
  OtherPlayers.playerIdsRef st' = OtherPlayers.playerIdsRef st /\
  OtherPlayers.playerIds st' =
    if OtherPlayers.changedIds (OtherPlayers.keys (OtherPlayers.delete u selfId))
                               (OtherPlayers.playerIdsRef st)
    then OtherPlayers.keys (OtherPlayers.delete u selfId)
    else OtherPlayers.playerIds st.
Proof.
  unfold OtherPlayers.messageHandler, OtherPlayers.presence, OtherPlayers.alloc.
  cbn [OtherPlayers.type OtherPlayers.users String.eqb Ascii.eqb Bool.eqb
       OtherPlayers.heap OtherPlayers.presenceRef OtherPlayers.playerIds
       OtherPlayers.playerIdsRef].
  rewrite load_alloc, load_store_alloc. repeat split.
Qed.

End Presence.

(** X17.  A presence update leaves [presenceRef.current] without an entry
    for the player's own id, although the handler stores the message's
    object before it deletes the entry: both names point at one object.
    Every other entry is the message's, in the message's order.  A message
    of any other type changes nothing. *)
Theorem presence_after_update (num : Type) (selfId : String.string)
        (st : OtherPlayers.State num) (u : OtherPlayers.Users num) :
  let st' := OtherPlayers.messageHandler selfId st
               (OtherPlayers.mkMessageJson "update-presence"%string u) in
  OtherPlayers.get (OtherPlayers.presence st') selfId = None /\
  (forall id, id <> selfId ->
     OtherPlayers.get (OtherPlayers.presence st') id = OtherPlayers.get u id) /\
  OtherPlayers.keys (OtherPlayers.presence st')
  = filter (fun k => negb (String.eqb k selfId)) (OtherPlayers.keys u) /\
  (forall m : OtherPlayers.MessageJson num,
     String.eqb (OtherPlayers.type m) "update-presence"%string = false ->
     OtherPlayers.messageHandler selfId st m = st).
Proof.
  intros st'. destruct (messageHandler_update selfId st u) as (Hp & _ & _).
  fold st' in Hp. rewrite Hp.
  split; [apply get_delete_same|]. split; [intros id Hid; apply get_delete_other, Hid|].
  split; [apply keys_delete|].
  intros m Hm. unfold OtherPlayers.messageHandler. rewrite Hm. reflexivity.
Qed.

(** X18.  On a presence update whose object has no key twice,
    [setPlayerIds] is skipped exactly when the ids of the message (without
    the player's own) are the current ids up to order; otherwise
    [playerIds] becomes the ids of the message, in the message's order. *)
Theorem playerIds_after_update (num : Type) (selfId : String.string)
        (st : OtherPlayers.State num) (u : OtherPlayers.Users num) :
  NoDup (OtherPlayers.keys u) ->
  let st' := OtherPlayers.messageHandler selfId st
               (OtherPlayers.mkMessageJson "update-presence"%string u) in
  let connIds := OtherPlayers.keys (OtherPlayers.presence st') in
  (Permutation connIds (OtherPlayers.playerIdsRef st) ->
   OtherPlayers.playerIds st' = OtherPlayers.playerIds st) /\
  (~ Permutation connIds (OtherPlayers.playerIdsRef st) ->
   OtherPlayers.playerIds st' = connIds).
Proof.
  intros Hn st' connIds. subst connIds.
  destruct (messageHandler_update selfId st u) as (Hp & _ & Hi).
  fold st' in Hp, Hi. rewrite Hp, Hi.
  pose proof (@changedIds_Permutation _ (OtherPlayers.playerIdsRef st)
                (@NoDup_keys_delete _ u selfId Hn)) as Hc.
  destruct (OtherPlayers.changedIds _ _).
  - split; [|reflexivity]. intros H. apply Hc in H. discriminate.
  - split; [reflexivity|]. intros H. exfalso. apply H, Hc. reflexivity.
Qed.

(** X18 at work: the same three users again, in another order, after they
    were rendered. *)
Lemma playerIds_after_update_witness :
  let st := OtherPlayers.receive "me"%string OtherPlayers.atMount
              (OtherPlayers.mkMessageJson "update-presence"%string threeUsers) in
  let st' := OtherPlayers.messageHandler "me"%string st
               (OtherPlayers.mkMessageJson "update-presence"%string (rev threeUsers)) in
  let connIds := OtherPlayers.keys (OtherPlayers.presence st') in
  (Permutation connIds (OtherPlayers.playerIdsRef st) ->
   OtherPlayers.playerIds st' = OtherPlayers.playerIds st) /\
  (~ Permutation connIds (OtherPlayers.playerIdsRef st) ->
   OtherPlayers.playerIds st' = connIds).
Proof.
  apply (@playerIds_after_update Q "me"%string
           (OtherPlayers.receive "me"%string OtherPlayers.atMount
              (OtherPlayers.mkMessageJson "update-presence"%string threeUsers))
           (rev threeUsers)).
  cbn. repeat constructor; cbn; intuition discriminate.
Defined.

Section Rendered.
Context {num : Type} (selfId : String.string).

Lemma rendered_atMount : rendered selfId (OtherPlayers.atMount (num := num)).
Proof.
  unfold rendered. cbn. repeat split; auto using NoDup_nil, Permutation_refl.
Qed.

Lemma rendered_receive (st : OtherPlayers.State num) (m : OtherPlayers.MessageJson num) :
  NoDup (OtherPlayers.keys (OtherPlayers.users m)) ->
  rendered selfId st -> rendered selfId (OtherPlayers.receive selfId st m).
Proof.
  intros Hn (Hr & Hp & Hd & Hs). destruct m as [t u]. cbn [OtherPlayers.users] in Hn.
  unfold OtherPlayers.receive.
  destruct (String.eqb t "update-presence"%string) eqn:Et.
  - apply String.eqb_eq in Et. subst t.
    destruct (messageHandler_update selfId st u) as (Hp' & Hr' & Hi').
    set (st' := OtherPlayers.messageHandler selfId st _) in *.
    unfold rendered, OtherPlayers.render, OtherPlayers.presence in *.
    cbn [OtherPlayers.heap OtherPlayers.presenceRef OtherPlayers.playerIds
         OtherPlayers.playerIdsRef].
    rewrite Hp'. split; [reflexivity|].
    split; [|split; [apply NoDup_keys_delete, Hn | apply not_In_keys_delete]].
    rewrite Hi'.
    destruct (OtherPlayers.changedIds _ _) eqn:Ec; [apply Permutation_refl|].
    apply changedIds_Permutation in Ec; [|apply NoDup_keys_delete, Hn].
    rewrite Hr in Ec. symmetry. exact Ec.
  - unfold OtherPlayers.messageHandler. cbn [OtherPlayers.type]. rewrite Et.
    unfold rendered, OtherPlayers.render, OtherPlayers.presence in *.
    cbn [OtherPlayers.heap OtherPlayers.presenceRef OtherPlayers.playerIds
         OtherPlayers.playerIdsRef].
    repeat split; assumption.
Qed.

Lemma rendered_receive_all (ms : list (OtherPlayers.MessageJson num)) :
  Forall (fun m => NoDup (OtherPlayers.keys (OtherPlayers.users m))) ms ->
  forall st, rendered selfId st -> rendered selfId (fold_left (OtherPlayers.receive selfId) ms st).
Proof.
  induction 1 as [|m ms Hm _ IH]; intros st Hst; [exact Hst|].
  cbn [fold_left]. apply IH, rendered_receive; assumption.
Qed.

End Rendered.

(** X19.  After any sequence of messages, each followed by a render and
    none with a key twice, the rendered ids are the keys of
    [presenceRef.current] up to order, without repetition; the player's own
    id is not among them; and every rendered id has a presence. *)
Theorem rendered_players_match_presence (num : Type) (selfId : String.string)
        (ms : list (OtherPlayers.MessageJson num)) :
  Forall (fun m => NoDup (OtherPlayers.keys (OtherPlayers.users m))) ms ->
  let st := fold_left (OtherPlayers.receive selfId) ms OtherPlayers.atMount in
  Permutation (OtherPlayers.playerIds st) (OtherPlayers.keys (OtherPlayers.presence st)) /\
  NoDup (OtherPlayers.playerIds st) /\
  ~ In selfId (OtherPlayers.playerIds st) /\
  (forall id, In id (OtherPlayers.playerIds st) ->
     OtherPlayers.get (OtherPlayers.presence st) id <> None).
Proof.
  intros H st.
  destruct (@rendered_receive_all num selfId ms H _ (@rendered_atMount num selfId))
    as (_ & Hp & Hd & Hs).
  fold st in Hp, Hd, Hs.
  split; [exact Hp|]. split; [|split].
  - eapply Permutation_NoDup; [symmetry; exact Hp|exact Hd].
  - intros Hin. apply Hs. eapply Permutation_in; eassumption.
  - intros id Hin. apply In_keys_get. eapply Permutation_in; eassumption.
Qed.

Lemma rendered_players_match_presence_witness :
  let st := fold_left (OtherPlayers.receive "me"%string)
              [OtherPlayers.mkMessageJson "update-presence"%string threeUsers;
               OtherPlayers.mkMessageJson "chat"%string [];
               OtherPlayers.mkMessageJson "update-presence"%string (tl threeUsers)]
              OtherPlayers.atMount in
  Permutation (OtherPlayers.playerIds st) (OtherPlayers.keys (OtherPlayers.presence st)) /\
  NoDup (OtherPlayers.playerIds st) /\
  ~ In "me"%string (OtherPlayers.playerIds st) /\
  (forall id, In id (OtherPlayers.playerIds st) ->
     OtherPlayers.get (OtherPlayers.presence st) id <> None).
Proof.
  apply (@rendered_players_match_presence Q "me"%string
           [OtherPlayers.mkMessageJson "update-presence"%string threeUsers;
            OtherPlayers.mkMessageJson "chat"%string [];
            OtherPlayers.mkMessageJson "update-presence"%string (tl threeUsers)]).
  repeat constructor; cbn; intuition discriminate.
Defined.

(** X20.  After a presence update, a frame of the [OtherPlayer] with id
    [id] puts a mounted group exactly at the position and rotation the
    message gives for [id], whatever they were before.  When the message
    has no entry for [id] (as always for the player's own id, whose entry
    the handler deletes), the frame leaves a mounted group alone, unless
    [id] names a member of [Object.prototype]: then the guard of line 98
    does not fire and the frame throws.  While the group is not mounted the
    frame returns and does nothing. *)
Theorem other_player_frame (num : Type) (selfId : String.string)
        (st : OtherPlayers.State num) (u : OtherPlayers.Users num)
        (id : String.string) (g : OtherPlayers.Group num) :
  let st' := OtherPlayers.messageHandler selfId st
               (OtherPlayers.mkMessageJson "update-presence"%string u) in
  (forall p, id <> selfId -> OtherPlayers.get u id = Some p ->
     OtherPlayers.useFrame st' id (Some g)
     = OtherPlayers.FrameReturned
         (Some (OtherPlayers.mkGroup (OtherPlayers.position p) (OtherPlayers.rotation p)))) /\
  (id = selfId \/ OtherPlayers.get u id = None ->
     OtherPlayers.useFrame st' id (Some g)
     = if OtherPlayers.inherited id then OtherPlayers.FrameTypeError num
       else OtherPlayers.FrameReturned (Some g)) /\
  OtherPlayers.useFrame st' id None = OtherPlayers.FrameReturned None.
Proof.
  intros st'. destruct (messageHandler_update selfId st u) as (Hp & _ & _).
  fold st' in Hp. unfold OtherPlayers.useFrame, OtherPlayers.read. rewrite Hp.
  split; [|split].
  - intros p Hid Hg. rewrite (get_delete_other u Hid), Hg.
    destruct p as [n [px py pz] [a b c d]]. reflexivity.
  - intros Hno.
    assert (Hg : OtherPlayers.get (OtherPlayers.delete u selfId) id = None).
    { destruct (String.eqb id selfId) eqn:E.
      - apply String.eqb_eq in E. subst id. apply get_delete_same.
      - apply String.eqb_neq in E. rewrite (get_delete_other u E).
        destruct Hno as [Hno|Hno]; [contradiction|exact Hno]. }
    rewrite Hg. destruct (OtherPlayers.inherited id); reflexivity.
  - destruct (OtherPlayers.get _ id); [reflexivity|].
    destruct (OtherPlayers.inherited id); reflexivity.
Qed.

(** X21.  The handler compares the ids of a message with the ids of the
    last render ([playerIdsRef.current]), not with [playerIds].  So when an
    update that empties the presence arrives after a first update and before
    any render, [setPlayerIds] is skipped: the ids of the first update stay
    in [playerIds] although none has a presence, and the frame of each such
    player leaves its group where it is, or throws on a mounted group when
    the id names a member of [Object.prototype]. *)
Theorem update_before_render (num : Type) (selfId : String.string)
        (u : OtherPlayers.Users num) :
  OtherPlayers.keys (OtherPlayers.delete u selfId) <> [] ->
  let update := OtherPlayers.mkMessageJson "update-presence"%string in
  let st1 := OtherPlayers.messageHandler selfId OtherPlayers.atMount (update u) in
  let st2 := OtherPlayers.messageHandler selfId st1 (update []) in
  OtherPlayers.playerIds st2 = OtherPlayers.keys (OtherPlayers.delete u selfId) /\
  OtherPlayers.presence st2 = [] /\
  (forall id ref,
      OtherPlayers.useFrame st2 id ref
      = match ref with
        | Some _ => if OtherPlayers.inherited id then OtherPlayers.FrameTypeError _
                    else OtherPlayers.FrameReturned ref
        | None => OtherPlayers.FrameReturned None
        end) /\
  OtherPlayers.playerIds (OtherPlayers.receive selfId (OtherPlayers.render st1) (update []))
  = [].
Proof.
  intros Hne update st1 st2.
  destruct (messageHandler_update selfId OtherPlayers.atMount u) as (Hp1 & Hr1 & Hi1).
  fold update in Hp1, Hr1, Hi1. fold st1 in Hp1, Hr1, Hi1.
  destruct (messageHandler_update selfId st1 []) as (Hp2 & Hr2 & Hi2).
  fold update in Hp2, Hr2, Hi2. fold st2 in Hp2, Hr2, Hi2.
  clearbody st1 st2.
  cbn [OtherPlayers.playerIdsRef OtherPlayers.atMount OtherPlayers.playerIds] in Hr1, Hi1.
  assert (Hc : OtherPlayers.changedIds
                 (OtherPlayers.keys (OtherPlayers.delete u selfId)) [] = true).
  { apply Bool.not_false_iff_true. intros E. apply changedIds_false in E.
    destruct E as [El _]. apply Hne, length_zero_iff_nil. exact El. }
  assert (Hc' : OtherPlayers.changedIds
                  [] (OtherPlayers.keys (OtherPlayers.delete u selfId)) = true).
  { apply Bool.not_false_iff_true. intros E. apply changedIds_false in E.
    destruct E as [El _]. apply Hne, length_zero_iff_nil. symmetry. exact El. }
  rewrite Hc in Hi1. rewrite Hr1 in Hi2.
  change (OtherPlayers.changedIds (OtherPlayers.keys (OtherPlayers.delete [] selfId)) [])
    with false in Hi2. cbv iota in Hi2.
  split; [congruence|]. split; [exact Hp2|]. split.
  - intros id ref. unfold OtherPlayers.useFrame, OtherPlayers.read. rewrite Hp2.
    cbn [OtherPlayers.delete filter OtherPlayers.get].
    destruct (OtherPlayers.inherited id), ref; reflexivity.
  - unfold OtherPlayers.receive.
    destruct (messageHandler_update selfId (OtherPlayers.render st1) [])
      as (_ & _ & Hi3).
    fold update in Hi3.
    change (OtherPlayers.playerIds
              (OtherPlayers.render
                 (OtherPlayers.messageHandler selfId (OtherPlayers.render st1) (update []))))
      with (OtherPlayers.playerIds
              (OtherPlayers.messageHandler selfId (OtherPlayers.render st1) (update []))).
    rewrite Hi3.
    change (OtherPlayers.playerIdsRef (OtherPlayers.render st1))
      with (OtherPlayers.playerIds st1).
    change (OtherPlayers.keys (OtherPlayers.delete [] selfId))
      with (@nil String.string).
    rewrite Hi1, Hc'. reflexivity.
Qed.

Lemma update_before_render_witness :
  let update := OtherPlayers.mkMessageJson (num := Q) "update-presence"%string in
  let st1 := OtherPlayers.messageHandler "me"%string OtherPlayers.atMount (update threeUsers) in
  let st2 := OtherPlayers.messageHandler "me"%string st1 (update []) in
  OtherPlayers.playerIds st2
  = OtherPlayers.keys (OtherPlayers.delete threeUsers "me"%string) /\
  OtherPlayers.presence st2 = [] /\
  (forall id ref,
      OtherPlayers.useFrame st2 id ref
      = match ref with
        | Some _ => if OtherPlayers.inherited id then OtherPlayers.FrameTypeError _
                    else OtherPlayers.FrameReturned ref
        | None => OtherPlayers.FrameReturned None
        end) /\
  OtherPlayers.playerIds
    (OtherPlayers.receive "me"%string (OtherPlayers.render st1) (update []))
  = [].
Proof.
  apply (@update_before_render Q "me"%string threeUsers).
  discriminate.
Defined.

(** ** The concrete runs in binary64 *)

Module Binary64.

(** 100 steps of forward alone: the speed ends between 4.7622 and 4.7623,
    below 4.9, as in exact arithmetic. *)
Example forward_100 :
  let v := speed (run (num := PrimFloat.float) initial (repeat (groundStep forwardOnly) 100)) in
  ltb (lit 4.7622) v && ltb v (lit 4.7623) && negb (ltb (lit 4.9) v) = true.
Proof. vm_compute. reflexivity. Qed.

(** Step 129 is the first that ends above 4.9. *)
Example forward_129 :
  let v n := speed (run (num := PrimFloat.float) initial (repeat (groundStep forwardOnly) n)) in
  negb (ltb (lit 4.9) (v 128%nat)) && ltb (lit 4.9) (v 129%nat) = true.
Proof. vm_compute. reflexivity. Qed.

(** Rounding does not carry the speed past its limits: at either limit,
    the blend toward that limit returns the limit. *)
Example limits_fixed :
  PrimFloat.eqb (THREE.lerp (lit 5) maxForwardSpeed (lit 0.03)) (lit 5)
  && PrimFloat.eqb (THREE.lerp (lit (-4)) maxReverseSpeed (lit 0.03)) (lit (-4)) = true.
Proof. vm_compute. reflexivity. Qed.

(** Drift and left from speed 2: DriftingLeft after the first step;
    [driftSteeringAngle] is 63/64 after six steps and 127/128, above 0.99,
    after seven; the speed is still above 1 after ten. *)
Example drift_left_10 :
  let r n := run (num := PrimFloat.float) (movingAt (lit 2)) (repeat (groundStep driftLeft) n) in
  driftingLeft (r 1%nat) && negb (driftingRight (r 1%nat))
  && driftingLeft (r 10%nat)
  && PrimFloat.eqb (driftSteeringAngle (r 6%nat)) (lit (63 # 64))
  && PrimFloat.eqb (driftSteeringAngle (r 7%nat)) (lit (127 # 128))
  && ltb (lit 0.99) (driftSteeringAngle (r 7%nat))
  && ltb (lit 1) (speed (r 10%nat)) = true.
Proof. vm_compute. reflexivity. Qed.

(** The second step of forward hands over the rotation of the raw impulse
    of the speed it starts with, 0.15, not of the speed it ends with. *)
Example drive_impulse_second_step :
  let e := groundStep (num := PrimFloat.float) forwardOnly in
  let o := beforePhysicsStep (step initial e) e in
  match driveImpulse o with
  | Some (THREE.ApplyQuaternion v _) =>
      PrimFloat.eqb (THREE.z v) (neg (speed (step initial e)) * lit 5)%num
      && ltb (neg (speed (refsOf o)) * lit 5)%num (THREE.z v)
  | _ => false
  end = true.
Proof. vm_compute. reflexivity. Qed.

(** From DriftingRight, drift and left end the step NotDrifting. *)
Example drift_left_from_right :
  let r := run (num := PrimFloat.float) initial
               (repeat (groundStep forwardOnly) 8 ++ [groundStep forwardDriftRight]) in
  let r' := step r (groundStep forwardDriftLeft) in
  driftingRight r && ltb (lit 1) (speed r)
  && negb (driftingLeft r') && negb (driftingRight r') = true.
Proof. vm_compute. reflexivity. Qed.

(** C9 fails as stated in the arithmetic of the source.  From the state at
    mount, hold left alone on the ground: in the fourth step the steering
    input is 1 and [driftSteeringAngle] is 0, so
    [steeringInput * 0.02 + driftSteeringAngle * 0.01] is the float 0.02,
    but the heading goes from the float 0.06 to the float 0.08, which is
    more than 0.02 apart (the subtraction of the two is exact). *)
Lemma heading_increment_is_rounded :
  let r := run (num := PrimFloat.float) initial (repeat (groundStep leftOnly) 3) in
  let r' := step r (groundStep leftOnly) in
  let increment :=
    add (mul (steeringInput r') (lit 0.02)) (mul (driftSteeringAngle r') (lit 0.01)) in
  PrimFloat.eqb (steeringInput r') (lit 1) = true /\
  PrimFloat.eqb (driftSteeringAngle r') (lit 0) = true /\
  PrimFloat.eqb increment (lit 0.02) = true /\
  PrimFloat.eqb (sub (steeringAngle r') (steeringAngle r)) increment = false /\
  ltb increment (sub (steeringAngle r') (steeringAngle r)) = true.
Proof. vm_compute. repeat split. Qed.


(** The first of the two terms added to the heading is, in binary64 too,
    0.02, -0.02 or 0 in every step that returns, from any state. *)
Example steering_term_values (r : Refs PrimFloat.float) (c : GameControls) b w :
  let t := mul (steeringInput (step r (mkStepEnv c (Some b) w))) (lit 0.02) in
  PrimFloat.eqb t (lit 0.02) || PrimFloat.eqb t (lit (-0.02)) || PrimFloat.eqb t (lit 0)
  = true.
Proof.
  cbv zeta. rewrite step_steeringInput. unfold steeringInputOf, Number.
  destruct (ltb _ _), (left c), (right c); vm_compute; reflexivity.
Qed.

End Binary64.
